(** * namegen: a shallow embedding of [main.py]

    The program builds hybrid names from a romanized Japanese given name and
    a Western surname.  This development embeds the functions of [main.py]
    and proves the properties of its specification against them.

    Conventions.
    - A Python [str] is a list of Unicode code points, [list N]; [len] is the
      length of that list.
    - A Python [set] of strings is a [gset (list N)], a [dict] with string
      keys a [gmap string _].
    - A function that can raise returns [result A]: [Ok v] or [Raise e].
    - What the program gets from outside (the Unicode case tables behind
      [str.lower] and [str.title], the [pykakasi] converter, the processes
      started through [subprocess.run], [pandas.read_csv], the random number
      generator) is a parameter: a type class whose instance fixes it. *)

From Stdlib Require Import NArith ZArith Ascii String List Sorting.Sorted Permutation Lia.
From stdpp Require Import base decidable option list numbers countable gmap strings sorting.

Local Open Scope N_scope.
Local Open Scope list_scope.

(** ** Strings *)

(** A Python string, as its code points. *)
Abbreviation pystr := (list N).

(** The code points of an ASCII literal. *)
Definition lit (s : string) : pystr :=
  List.map N_of_ascii (list_ascii_of_string s).

Definition in_range (lo hi c : N) : bool := (lo <=? c) && (c <=? hi).

(** [str.isspace] on one code point: the white-space code points of the
    Unicode character database, which [str.strip] without argument removes. *)
Definition py_isspace (c : N) : bool :=
  in_range 0x09 0x0D c || in_range 0x1C 0x20 c || (c =? 0x85) || (c =? 0xA0)
  || (c =? 0x1680) || in_range 0x2000 0x200A c || (c =? 0x2028)
  || (c =? 0x2029) || (c =? 0x202F) || (c =? 0x205F) || (c =? 0x3000).

Fixpoint py_lstrip (s : pystr) : pystr :=
  match s with
  | [] => []
  | c :: s' => if py_isspace c then py_lstrip s' else s
  end.

Definition py_rstrip (s : pystr) : pystr := rev (py_lstrip (rev s)).

(** [s.strip()] *)
Definition py_strip (s : pystr) : pystr := py_rstrip (py_lstrip s).

(** [s.endswith(suffix)] *)
Fixpoint py_startswith (s p : pystr) : bool :=
  match p, s with
  | [], _ => true
  | _ :: _, [] => false
  | a :: p', b :: s' => (a =? b) && py_startswith s' p'
  end.

Definition py_endswith (s suffix : pystr) : bool :=
  py_startswith (rev s) (rev suffix).

(** [s.replace(old, new)] for a one-character [old]. *)
Definition py_replace_char (old : N) (new : pystr) (s : pystr) : pystr :=
  List.concat (List.map (fun c => if c =? old then new else [c]) s).

(** The case tables of the Unicode database, which [str.lower] and
    [str.title] consult and which are not part of the program.
    [uc_lower s i c] is the lower-case mapping of [c] standing at index [i]
    of [s] (the mapping of capital sigma depends on its neighbours). *)
Class UnicodeCase := {
  uc_is_cased : N -> bool;
  uc_title_full : N -> pystr;
  uc_lower : pystr -> nat -> N -> pystr
}.

Section CaseMapping.
Context {UC : UnicodeCase}.

Fixpoint do_lower (s : pystr) (i : nat) (rest : pystr) : pystr :=
  match rest with
  | [] => []
  | c :: rest' => uc_lower s i c ++ do_lower s (S i) rest'
  end.

(** [s.lower()] *)
Definition py_lower (s : pystr) : pystr := do_lower s 0 s.

Fixpoint do_title (s : pystr) (i : nat) (rest : pystr)
         (previous_is_cased : bool) : pystr :=
  match rest with
  | [] => []
  | c :: rest' =>
      (if previous_is_cased then uc_lower s i c else uc_title_full c)
        ++ do_title s (S i) rest' (uc_is_cased c)
  end.

(** [s.title()]: a character after a cased character is lower-cased, any
    other character is title-cased. *)
Definition py_title (s : pystr) : pystr := do_title s 0 s false.
End CaseMapping.

(** The case tables restricted to ASCII (other code points are left alone);
    used to run the program on concrete inputs. *)
Definition ascii_upper (c : N) : N := if in_range 0x61 0x7A c then c - 32 else c.
Definition ascii_lower (c : N) : N := if in_range 0x41 0x5A c then c + 32 else c.

Definition ascii_case : UnicodeCase := {|
  uc_is_cased c := in_range 0x41 0x5A c || in_range 0x61 0x7A c;
  uc_title_full c := [ascii_upper c];
  uc_lower _ _ c := [ascii_lower c]
|}.

(** ** Regular expressions

    The two patterns of the program are character classes combined by
    sequence, [*] and [+]; [re.fullmatch] is modelled by Brzozowski
    derivatives. *)

Inductive regex : Type :=
| Void : regex                          (* matches nothing *)
| Eps : regex                           (* matches the empty string *)
| Class (ranges : list (N * N)) : regex (* [a-b...] *)
| Cat (r1 r2 : regex) : regex
| Alt (r1 r2 : regex) : regex
| Star (r : regex) : regex
| Plus (r : regex) : regex.

Definition in_class (ranges : list (N * N)) (c : N) : bool :=
  existsb (fun p => in_range (fst p) (snd p) c) ranges.

Fixpoint nullable (r : regex) : bool :=
  match r with
  | Void => false
  | Eps => true
  | Class _ => false
  | Cat r1 r2 => nullable r1 && nullable r2
  | Alt r1 r2 => nullable r1 || nullable r2
  | Star _ => true
  | Plus r => nullable r
  end.

Fixpoint deriv (c : N) (r : regex) : regex :=
  match r with
  | Void => Void
  | Eps => Void
  | Class rs => if in_class rs c then Eps else Void
  | Cat r1 r2 =>
      if nullable r1 then Alt (Cat (deriv c r1) r2) (deriv c r2)
      else Cat (deriv c r1) r2
  | Alt r1 r2 => Alt (deriv c r1) (deriv c r2)
  | Star r => Cat (deriv c r) (Star r)
  | Plus r => Cat (deriv c r) (Star r)
  end.

(** [re.fullmatch(r, s)] as a truth value. *)
Fixpoint re_fullmatch (r : regex) (s : pystr) : bool :=
  match s with
  | [] => nullable r
  | c :: s' => re_fullmatch (deriv c r) s'
  end.

(** [[぀-ヿ]+] *)
Definition kana_re : regex := Plus (Class [(0x3040, 0x30FF)]).

(** [[A-Za-z][A-Za-z' -]*] *)
Definition name_re : regex :=
  Cat (Class [(0x41, 0x5A); (0x61, 0x7A)])
      (Star (Class [(0x41, 0x5A); (0x61, 0x7A); (0x27, 0x27); (0x20, 0x20); (0x2D, 0x2D)])).

(** The language of a regular expression. *)
Fixpoint lang (r : regex) (s : pystr) : Prop :=
  match r with
  | Void => False
  | Eps => s = []
  | Class rs => exists c, s = [c] /\ in_class rs c = true
  | Cat r1 r2 => exists s1 s2, s = s1 ++ s2 /\ lang r1 s1 /\ lang r2 s2
  | Alt r1 r2 => lang r1 s \/ lang r2 s
  | Star r => exists ss, s = List.concat ss /\ Forall (lang r) ss
  | Plus r => exists s1 ss, s = s1 ++ List.concat ss /\ lang r s1 /\ Forall (lang r) ss
  end.

(** ** Exceptions and results *)

#[warnings="-register-all"]
Inductive exn : Type :=
| ValueError (msg : string)
| IndexError (msg : string)
| KeyError (key : string)
| FileNotFoundError (msg : string)
| OSError (msg : string)
| ParseError (msg : string)
| CalledProcessError (returncode : Z) (cmd : list string)
| RuntimeError (msg : string) (cause : option exn).   (* [raise ... from cause] *)

Inductive result (A : Type) : Type :=
| Ok (v : A)
| Raise (e : exn).
Arguments Ok {A} v.
Arguments Raise {A} e.

Definition bind {A B} (m : result A) (k : A -> result B) : result B :=
  match m with
  | Ok v => k v
  | Raise e => Raise e
  end.

(** [x ← m; k] is stdpp's notation for [bind m (fun x => k)]. *)
#[global] Instance result_ret : MRet result := fun _ v => Ok v.
#[global] Instance result_bind : MBind result := fun _ _ k m => bind m k.

(** ** XML elements *)

(** An [xml.etree.ElementTree.Element], with the fields the program reads. *)
#[warnings="-register-all"]
Inductive Element : Type :=
| mkElement (tag : option pystr) (text : option pystr) (children : list Element).

Definition tag (e : Element) : option pystr :=
  match e with mkElement t _ _ => t end.
Definition text (e : Element) : option pystr :=
  match e with mkElement _ x _ => x end.
Definition children (e : Element) : list Element :=
  match e with mkElement _ _ cs => cs end.

(** [elem.iter()]: the element and its descendants, in document order. *)
Fixpoint iter (e : Element) : list Element :=
  match e with
  | mkElement _ _ cs => e :: List.flat_map iter cs
  end.

(** [elem.clear()]: drops the text and the children, keeps the tag. *)
Definition clear (e : Element) : Element := mkElement (tag e) None [].

(** Truth value of [e.text]: neither [None] nor the empty string. *)
Definition truthy (x : option pystr) : bool :=
  match x with
  | Some (_ :: _) => true
  | _ => false
  end.

(** [e.text or ""] *)
Definition text_or_empty (e : Element) : pystr := default [] (text e).

(** The [pykakasi] converter behind [_KKS]: [convert] cuts a text into
    parts, each a dict with keys such as ["orig"] and ["hepburn"]. *)
Class Kakasi := { kks_convert : pystr -> list (gmap string pystr) }.

(** ** Name extraction *)

Record parse_state : Type := mkState {
  given_names : gset pystr;
  fallback_candidates : gset pystr;
  total_entries : nat;
  processed_entries : nat
}.

Definition init_state : parse_state := mkState ∅ ∅ 0 0.

Fixpoint min_from (best : pystr) (l : list pystr) : pystr :=
  match l with
  | [] => best
  | x :: l' => if (length x <? length best)%nat then min_from x l' else min_from best l'
  end.

(** [min(l, key=len)]: raises [ValueError] on an empty sequence; an item
    replaces the current minimum only when it is strictly shorter. *)
Definition py_min_len (l : list pystr) : result pystr :=
  match l with
  | [] => Raise (ValueError "min() arg is an empty sequence")
  | x :: l' => Ok (min_from x l')
  end.

(** [a or b] on lists. *)
Definition list_or {A} (a b : list A) : list A :=
  match a with [] => b | _ => a end.

Definition is_nil {A} (l : list A) : bool :=
  match l with [] => true | _ => false end.

Section Extraction.
Context {UC : UnicodeCase} {KKS : Kakasi}.

(** [to_romaji] *)
Definition to_romaji (text : pystr) : pystr :=
  let parts := kks_convert text in
  let romaji := List.concat (List.map (fun part => default [] (part !! "hepburn"%string)) parts) in
  let result := py_title (py_strip romaji) in
  result.

(** [_ends] *)
Definition _ends (tag : option pystr) (name : string) : bool :=
  match tag with
  | None => false
  | Some t => py_endswith (py_lower t) (py_lower (lit name))
  end.

(** [_text_lower] *)
Definition _text_lower (e : Element) : pystr :=
  py_lower (py_strip (text_or_empty e)).

(** The texts of the descendants whose tag ends with [name] and whose
    text is truthy: [[r.text for r in elem.iter() if _ends(r.tag, name) and r.text]]. *)
Definition readings (name : string) (elem : Element) : list pystr :=
  List.map text_or_empty
    (List.filter (fun r => _ends (tag r) name && truthy (text r)) (iter elem)).

Definition name_types (elem : Element) : gset pystr :=
  list_to_set (List.map _text_lower
    (List.filter (fun nt => _ends (tag nt) "name_type" && truthy (text nt)) (iter elem))).

Definition has_name_type (elem : Element) : bool :=
  bool_decide (name_types elem ≠ ∅).

Definition kana_readings : Element -> list pystr := readings "reb".
Definition kanji_readings : Element -> list pystr := readings "keb".

Definition only_kana (kana : list pystr) : list pystr :=
  List.filter (re_fullmatch kana_re) kana.

(** Lines 182-189: the reading that is romanized. *)
Definition choose_base (kana kanji : list pystr) : result pystr :=
  if negb (is_nil kana) then py_min_len (list_or (only_kana kana) kana)
  else py_min_len kanji.

(** The test of lines 192-194, as the truth value of the accepted case. *)
Definition valid_romaji (romaji : pystr) : bool :=
  (2 <=? length romaji)%nat && (length romaji <=? 14)%nat
  && re_fullmatch name_re romaji.

(** One iteration of the [for event, elem in context] loop.  It returns
    the element as the iteration leaves it (cleared or not) and the new
    values of the loop variables. *)
Definition loop_body (elem : Element) (st : parse_state)
  : result (Element * parse_state) :=
  let st := mkState (given_names st) (fallback_candidates st)
                    (total_entries st + 1) (processed_entries st) in
  if negb (_ends (tag elem) "entry") then Ok (elem, st)
  else
    let st := mkState (given_names st) (fallback_candidates st)
                      (total_entries st) (processed_entries st + 1) in
    let is_given := has_name_type elem in
    let kana := kana_readings elem in
    let kanji := kanji_readings elem in
    if is_nil kana && is_nil kanji then Ok (clear elem, st)
    else
      base ← choose_base kana kanji;
      let romaji := to_romaji base in
      if negb (valid_romaji romaji) then Ok (clear elem, st)
      else if is_given then
        Ok (clear elem,
            mkState ({[romaji]} ∪ given_names st) (fallback_candidates st)
                    (total_entries st) (processed_entries st))
      else
        Ok (clear elem,
            mkState (given_names st) ({[romaji]} ∪ fallback_candidates st)
                    (total_entries st) (processed_entries st)).
End Extraction.

(** ** The event loop of [ET.iterparse]

    With [events=("end",)] the parser hands out every element when its end
    tag is read, so children come before their parent, and the parent that
    comes later holds the very objects the loop has already seen: an element
    cleared by the loop stays cleared inside its ancestors.  [iterparse_for]
    runs a loop body over the document in that order and rebuilds each
    parent from its children as the body left them. *)

Section Iterparse.
Context {S : Type} (body : Element -> S -> result (Element * S)).

Fixpoint iterparse_for (e : Element) (st : S) : result (Element * S) :=
  match e with
  | mkElement t x cs =>
      '(cs', st1) ←
        (fix visit (l : list Element) (st : S) : result (list Element * S) :=
           match l with
           | [] => Ok ([], st)
           | c :: l' =>
               '(c', st') ← iterparse_for c st;
               '(l'', st'') ← visit l' st';
               Ok (c' :: l'', st'')
           end) cs st;
      body (mkElement t x cs') st1
  end.
End Iterparse.

(** ** Sorting *)

(** [s <= t] on strings: lexicographic on code points. *)
Fixpoint str_leb (s t : pystr) : bool :=
  match s, t with
  | [], _ => true
  | _ :: _, [] => false
  | a :: s', b :: t' => (a <? b) || ((a =? b) && str_leb s' t')
  end.

Definition str_le (s t : pystr) : Prop := str_leb s t = true.

#[global] Instance str_le_dec : RelDecision str_le.
Proof. intros s t. unfold str_le. apply _. Defined.

(** [sorted(l)] on strings. *)
Definition py_sorted (l : list pystr) : list pystr := merge_sort str_le l.

(** ** Files *)

(** A cell of a CSV column as [pandas] returns it: a string or something
    else (a number, a missing value). *)
Inductive cell : Type :=
| CellStr (s : pystr)
| CellOther.

(** A file, by what it holds. *)
#[warnings="-register-all"]
Inductive file : Type :=
| Text (content : pystr)                      (* UTF-8 text *)
| XmlDoc (root : Element)                     (* a well-formed XML document *)
| Gz (inner : file)                           (* gzip of [inner] *)
| ZipArchive (members : list (pystr * file))  (* zip archive, in [namelist] order *)
| CsvTable (columns : list (string * list cell))
| Blob.                                       (* any other non-empty content *)

(** What [ET.iterparse] reads from: a plain stream or a [gzip.open] stream. *)
Inductive stream : Type :=
| PlainStream (f : file)
| GzipStream (f : file).

(** The document read from a stream, or the error of the reader. *)
Definition iterparse (f : stream) : result Element :=
  match f with
  | PlainStream (XmlDoc root) => Ok root
  | PlainStream _ => Raise (ParseError "not well-formed")
  | GzipStream (Gz (XmlDoc root)) => Ok root
  | GzipStream (Gz _) => Raise (ParseError "not well-formed")
  | GzipStream _ => Raise (OSError "Not a gzipped file")
  end.

(** [_open_jmnedict_stream] *)
Definition _open_jmnedict_stream (fs : gmap string file) : result stream :=
  match fs !! "data/JMnedict.xml"%string with
  | Some f => Ok (PlainStream f)
  | None =>
      match fs !! "data/JMnedict.xml.gz"%string with
      | Some f => Ok (GzipStream f)
      | None => Raise (FileNotFoundError "JMnedict not found (xml or xml.gz)")
      end
  end.

Section Parse.
Context {UC : UnicodeCase} {KKS : Kakasi}.

(** The loop of [parse_japanese_names]: the values of the loop variables
    once the stream is exhausted. *)
Definition parse_loop (root : Element) : result parse_state :=
  '(_, st) ← iterparse_for loop_body root init_state;
  Ok st.

(** [parse_japanese_names] *)
Definition parse_japanese_names (fs : gmap string file) : result (list pystr) :=
  f ← _open_jmnedict_stream fs;
  root ← iterparse f;
  st ← parse_loop root;
  let combined := given_names st ∪ fallback_candidates st in
  if decide (combined = ∅) then
    Raise (RuntimeError "No Japanese names found after parsing." None)
  else
    let result := py_sorted (elements combined) in
    Ok result.
End Parse.

(** ** The world outside the program *)

(** How a child process ended: with an exit status, or not started at all
    ([subprocess.run] raises an [OSError], for instance [FileNotFoundError]
    when the executable is missing). *)
Inductive proc_outcome : Type :=
| Exited (returncode : Z)
| NotStarted (msg : string).

(** A child process, given its argument list and the files it finds,
    ends and leaves files behind. *)
Class Processes := {
  run_process : list string -> gmap string file -> proc_outcome * gmap string file
}.

(** The generator behind [random.choice]: from a generator state and a
    bound [n], an index and the next state. *)
Class Random := { randbelow : N -> nat -> nat * N }.

Record world : Type := mkWorld {
  files : gmap string file;        (* the files, by path *)
  stdout : list pystr;             (* the lines printed so far *)
  spawned : list (list string);    (* the processes started so far *)
  rng : N                          (* the state of the random generator *)
}.

(** A computation that reads and changes the world and may raise; what it
    did before raising stays done. *)
Definition io (A : Type) : Type := world -> result A * world.

#[global] Instance io_ret : MRet io := fun _ v w => (Ok v, w).
#[global] Instance io_bind : MBind io := fun _ _ k m w =>
  match m w with
  | (Ok v, w') => k v w'
  | (Raise e, w') => (Raise e, w')
  end.

Definition io_raise {A} (e : exn) : io A := fun w => (Raise e, w).

Definition io_lift {A} (r : result A) : io A := fun w => (r, w).

Definition get_files : io (gmap string file) := fun w => (Ok (files w), w).

Definition set_files (fs : gmap string file) : io unit := fun w =>
  (Ok tt, mkWorld fs (stdout w) (spawned w) (rng w)).

(** [print(line)] *)
Definition print (line : pystr) : io unit := fun w =>
  (Ok tt, mkWorld (files w) (stdout w ++ [line]) (spawned w) (rng w)).

(** [p.exists()] *)
Definition exists_ (fs : gmap string file) (p : string) : bool :=
  bool_decide (is_Some (fs !! p)).

(** [subprocess.run(args, check=True)] *)
Definition subprocess_run_check {P : Processes} (args : list string) : io unit :=
  fun w =>
    let '(outcome, fs) := run_process args (files w) in
    let w' := mkWorld fs (stdout w) (spawned w ++ [args]) (rng w) in
    match outcome with
    | Exited 0%Z => (Ok tt, w')
    | Exited code => (Raise (CalledProcessError code args), w')
    | NotStarted msg => (Raise (OSError msg), w')
    end.

(** [l.insert(1, x)] *)
Definition insert_at_1 {A} (x : A) (l : list A) : list A :=
  match l with
  | [] => [x]
  | a :: l' => a :: x :: l'
  end.

(** [str(e)], as far as the program prints exceptions. *)
Definition exn_str (e : exn) : pystr :=
  match e with
  | ValueError m | IndexError m | KeyError m | FileNotFoundError m
  | OSError m | ParseError m | RuntimeError m _ => lit m
  | CalledProcessError _ _ => lit "Command returned non-zero exit status"
  end.

Definition is_surrogate (c : N) : bool := in_range 0xD800 0xDFFF c.

(** The lines a text file yields when iterated over: [\n], [\r] and [\r\n]
    each end a line and are read as [\n]. *)
Fixpoint readlines (s : pystr) : list pystr :=
  match s with
  | [] => []
  | c :: s' =>
      if c =? 10 then [10] :: readlines s'
      else if c =? 13 then
        match s' with
        | 10 :: s'' => [10] :: readlines s''
        | _ => [10] :: readlines s'
        end
      else
        match readlines s' with
        | [] => [[c]]
        | l :: ls => (c :: l) :: ls
        end
  end.

(** [zf.open(member)]: the last member of that name. *)
Definition zip_open (members : list (pystr * file)) (member : pystr) : option file :=
  snd <$> List.find (fun m => bool_decide (fst m = member)) (rev members).

Definition jm_gz : string := "data/JMnedict.xml.gz".
Definition jm_xml : string := "data/JMnedict.xml".
Definition jm_zip : string := "data/JMnedict.xml.zip".
Definition jp_names_path : string := "data/jp_names.txt".

(** The list [sources] of [download_if_missing]: URL, [insecure], target. *)
Definition sources : list (string * bool * string) :=
  [ ("https://ftp.edrdg.org/pub/Nihongo/JMnedict.xml.gz", true, jm_gz);
    ("https://ftp.usf.edu/pub/ftp.monash.edu.au/pub/nihongo/JMnedict.xml.gz", false, jm_gz);
    ("http://ftp.edrdg.org/pub/Nihongo/JMnedict.xml.gz", false, jm_gz);
    ("https://raw.githubusercontent.com/echamudi/jp-resources-mirror/443711d6fab8072f7ec23cdd00f47e8f4d51aa71/EDRDG%20-%202021-06-30/JMnedict.xml.zip",
     false, jm_zip) ]%string.

Section Program.
Context {UC : UnicodeCase} {KKS : Kakasi} {P : Processes} {R : Random}.

(** The argument list of [_run_curl]. *)
Definition curl_args (url out : string) (insecure : bool) : list string :=
  let args := [ "curl"; "-L"; url; "--retry"; "3"; "--retry-delay"; "2";
                "--connect-timeout"; "15"; "--max-time"; "120"; "-o"; out ]%string in
  if insecure then insert_at_1 "--insecure"%string args else args.

(** [_run_curl] *)
Definition _run_curl (url out : string) (insecure : bool) : io unit :=
  subprocess_run_check (curl_args url out insecure).

(** The [for ... else] loop of [download_if_missing] over the sources
    still to try: a success leaves the loop, a [CalledProcessError] is
    kept in [last_error] and the next source is tried, any other exception
    propagates, and the [else] branch runs when the sources are used up. *)
Fixpoint try_sources (srcs : list (string * bool * string))
         (last_error : option exn) : io unit :=
  match srcs with
  | [] => io_raise (RuntimeError "All JMnedict sources failed" last_error)
  | (url, insecure, target) :: rest =>
      fun w =>
        match _run_curl url target insecure w with
        | (Ok _, w') => (Ok tt, w')
        | (Raise (CalledProcessError code cmd), w') =>
            try_sources rest (Some (CalledProcessError code cmd)) w'
        | (Raise e, w') => (Raise e, w')
        end
  end.

(** [_extract_jmnedict_files] *)
Definition _extract_jmnedict_files (jm_xml jm_gz jm_zip : string) : io unit :=
  fs ← get_files;
  (if exists_ fs jm_zip && negb (exists_ fs jm_xml) then
     print (lit ("Unzipping " ++ jm_zip ++ " -> data"));;
     match fs !! jm_zip with
     | Some (ZipArchive members) =>
         match List.find (fun m => py_endswith (py_lower (fst m)) (lit "jmnedict.xml"))
                         members with
         | None => io_raise (RuntimeError "JMnedict.xml not found inside zip" None)
         | Some (member, _) =>
             let tmp := "data/JMnedict.xml.tmp"%string in
             match zip_open members member with
             | Some content => set_files (<[jm_xml := content]> (delete tmp fs))
             | None => io_raise (KeyError "There is no item named that in the archive")
             end
         end
     | _ => io_raise (OSError "File is not a zip file")
     end
   else mret tt);;
  fs ← get_files;
  if exists_ fs jm_gz && negb (exists_ fs jm_xml) then
    print (lit ("Unzipping " ++ jm_gz ++ " -> " ++ jm_xml));;
    match fs !! jm_gz with
    | Some (Gz inner) => set_files (<[jm_xml := inner]> fs)
    | _ => set_files (<[jm_xml := Text []]> fs);;
           io_raise (OSError "Not a gzipped file")
    end
  else mret tt.

(** [_extract_census_data] *)
Definition _extract_census_data : io unit :=
  let zip_path := "data/us_surnames.zip"%string in
  let csv_path := "data/Names_2010Census.csv"%string in
  fs ← get_files;
  if negb (exists_ fs csv_path) then
    (if negb (exists_ fs zip_path) then
       _run_curl "https://www2.census.gov/topics/genealogy/2010surnames/names.zip"
                 zip_path false
     else mret tt);;
    print (lit ("Extracting US Census CSV -> " ++ csv_path));;
    subprocess_run_check ["unzip"; "-j"; zip_path; "-d"; "data"]%string
  else mret tt.

(** [download_if_missing] *)
Definition download_if_missing : io unit :=
  fs ← get_files;
  (if negb (exists_ fs jm_gz || exists_ fs jm_xml || exists_ fs jm_zip) then
     try_sources sources None
   else mret tt);;
  _extract_jmnedict_files jm_xml jm_gz jm_zip;;
  _extract_census_data.

(** [parse_western_surnames] *)
Definition parse_western_surnames : io (list pystr) :=
  fs ← get_files;
  match fs !! "data/Names_2010Census.csv"%string with
  | None => io_raise (FileNotFoundError "data/Names_2010Census.csv")
  | Some (CsvTable columns) =>
      match List.find (fun col => bool_decide (fst col = "name"%string)) columns with
      | None => io_raise (KeyError "name")
      | Some (_, census_name) =>
          let census_surnames : gset pystr :=
            list_to_set (List.flat_map
              (fun n => match n with CellStr s => [py_title s] | CellOther => [] end)
              census_name) in
          let result := py_sorted (elements census_surnames) in
          mret result
      end
  | Some _ => io_raise (ParseError "Error tokenizing data")
  end.

(** [random.choice(seq)] *)
Definition random_choice (seq : list pystr) : io pystr := fun w =>
  if is_nil seq then (Raise (IndexError "Cannot choose from an empty sequence"), w)
  else
    let '(i, g) := randbelow (rng w) (length seq) in
    let w' := mkWorld (files w) (stdout w) (spawned w) g in
    match seq !! i with
    | Some x => (Ok x, w')
    | None => (Raise (IndexError "list index out of range"), w')
    end.

(** [generate_name] *)
Definition generate_name (jp_names west_surnames : list pystr) : io pystr :=
  given ← random_choice jp_names;
  surname ← random_choice west_surnames;
  mret (given ++ lit " " ++ surname).

(** [save_to_jp_names_file]: opening for append creates the file; a name
    with a lone surrogate cannot be encoded as UTF-8; whatever is raised is
    caught and reported. *)
Definition save_to_jp_names_file (name : pystr) : io unit :=
  fs ← get_files;
  let failed (e : exn) :=
    print (lit ("Failed to save name to " ++ jp_names_path ++ ": ") ++ exn_str e) in
  match default (Text []) (fs !! jp_names_path) with
  | Text content =>
      if existsb is_surrogate name then
        set_files (<[jp_names_path := Text content]> fs);;
        failed (ValueError "surrogates not allowed")
      else set_files (<[jp_names_path := Text (content ++ name ++ [10])]> fs)
  | _ =>
      if existsb is_surrogate name then failed (ValueError "surrogates not allowed")
      else set_files (<[jp_names_path := Blob]> fs)
  end.

(** [load_from_jp_names_file]: a file that is not UTF-8 text fails to
    decode, which is caught and reported. *)
Definition load_from_jp_names_file : io (list pystr) :=
  fs ← get_files;
  match fs !! jp_names_path with
  | None => mret []
  | Some (Text content) =>
      let names :=
        List.map py_strip
          (List.filter (fun line => negb (is_nil (py_strip line))) (readlines content)) in
      mret names
  | Some _ =>
      print (lit ("Failed to load names from " ++ jp_names_path ++ ": ")
               ++ exn_str (ValueError "invalid start byte"));;
      mret []
  end.

(** The [for name in jp_names: f.write(...)] loop on a file opened with
    ["w"]: the text written, and whether a name could not be encoded. *)
Fixpoint write_names (written : pystr) (names : list pystr) : pystr * bool :=
  match names with
  | [] => (written, true)
  | name :: rest =>
      if existsb is_surrogate name then (written, false)
      else write_names (written ++ name ++ [10]) rest
  end.

(** [ensure_data_prepared] *)
Definition ensure_data_prepared : io unit :=
  fs ← get_files;
  let jp_names_available :=
    match fs !! jp_names_path with
    | None => false
    | Some (Text []) => false
    | Some _ => true
    end in
  download_if_missing;;
  if negb jp_names_available then
    fs ← get_files;
    jp_names ← io_lift (parse_japanese_names fs);
    let '(written, ok) := write_names [] jp_names in
    set_files (<[jp_names_path := Text written]> fs);;
    if ok then mret tt else io_raise (ValueError "surrogates not allowed")
  else mret tt.

(** [main]: the value it returns. *)
Definition main : io Z :=
  ensure_data_prepared;;
  jp_names ← load_from_jp_names_file;
  if is_nil jp_names then
    print (lit "No Japanese names available. Please check data files.");;
    mret 1%Z
  else
    west_surnames ← parse_western_surnames;
    result ← generate_name jp_names west_surnames;
    print result;;
    print (py_replace_char 32 (lit "-") (py_lower result));;
    mret 0%Z.

(** Running the file as a script, [if __name__ == "__main__": main()]:
    the exit status of the interpreter and the world it leaves.  The value
    of [main()] is dropped; the status is 1 when an exception reaches the
    top level and 0 otherwise. *)
Definition run_script (w : world) : Z * world :=
  match main w with
  | (Ok _, w') => (0%Z, w')
  | (Raise _, w') => (1%Z, w')
  end.
End Program.

(** ** Vocabulary of the specification *)

(** A code point of the Hiragana block (U+3040 to U+309F) or of the
    Katakana block (U+30A0 to U+30FF). *)
Definition is_kana_char (c : N) : bool := in_range 0x3040 0x30FF c.

(** An alphabetic character of a romanized name: a Latin letter. *)
Definition is_letter (c : N) : bool := in_range 0x41 0x5A c || in_range 0x61 0x7A c.

(** A letter, an apostrophe, a hyphen or a space. *)
Definition is_name_char (c : N) : bool :=
  is_letter c || (c =? 0x27) || (c =? 0x2D) || (c =? 0x20).

(** One leading letter followed by zero or more name characters. *)
Definition name_shaped (s : pystr) : Prop :=
  exists c rest, s = c :: rest /\ is_letter c = true
                 /\ Forall (fun d => is_name_char d = true) rest.

(** [b] is the shortest item of [l], and the first of the shortest ones:
    what stands before it is strictly longer, what stands after it is
    at least as long. *)
Definition first_shortest (b : pystr) (l : list pystr) : Prop :=
  exists pre post, l = pre ++ b :: post
    /\ Forall (fun r => (length b < length r)%nat) pre
    /\ Forall (fun r => (length b <= length r)%nat) post.

(** No white space at either end. *)
Definition trimmed (s : pystr) : Prop :=
  (forall c, head s = Some c -> py_isspace c = false)
  /\ (forall c, last s = Some c -> py_isspace c = false).

(** A line break of a text file. *)
Definition is_newline (c : N) : bool := (c =? 10) || (c =? 13).

(** The extraction loop without the explicit/fallback distinction: one set
    receives every accepted candidate, and [name_type] is never looked at. *)
Section Blind.
Context {UC : UnicodeCase} {KKS : Kakasi}.

Definition blind_body (elem : Element) (names : gset pystr)
  : result (Element * gset pystr) :=
  if negb (_ends (tag elem) "entry") then Ok (elem, names)
  else
    let kana := kana_readings elem in
    let kanji := kanji_readings elem in
    if is_nil kana && is_nil kanji then Ok (clear elem, names)
    else
      base ← choose_base kana kanji;
      let romaji := to_romaji base in
      if negb (valid_romaji romaji) then Ok (clear elem, names)
      else Ok (clear elem, {[romaji]} ∪ names).

Definition blind_loop (root : Element) : result (gset pystr) :=
  '(_, names) ← iterparse_for blind_body root ∅;
  Ok names.
End Blind.

(** ** Instances for running the program on concrete inputs *)

(** A converter that knows six kana and passes everything else through. *)
Definition demo_hepburn (c : N) : pystr :=
  if c =? 0x3042 then lit "a"
  else if c =? 0x3044 then lit "i"
  else if c =? 0x3053 then lit "ko"
  else if c =? 0x305F then lit "ta"
  else if c =? 0x308D then lit "ro"
  else if c =? 0x3046 then lit "u"
  else [c].

Definition demo_kakasi : Kakasi := {|
  kks_convert text :=
    [ {[ "orig"%string := text;
         "hepburn"%string := List.concat (List.map demo_hepburn text) ]} ]
|}.

(** あいこ and あいこたろう *)
Definition aiko : pystr := [0x3042; 0x3044; 0x3053].
Definition aikotarou : pystr := [0x3042; 0x3044; 0x3053; 0x305F; 0x308D; 0x3046].

(** A generator that always draws index 0 below a positive bound. *)
Definition demo_random : Random := {| randbelow g _ := (0%nat, g + 1) |}.

(** Child processes: [curl] exits with status 22 on the URLs listed in
    [down], cannot be started when [missing] is set, and otherwise stores a
    compressed empty dictionary at the path after [-o]; every other command
    exits with status 0 and changes nothing. *)
Definition demo_target (args : list string) : string :=
  List.last args ""%string.

Definition demo_processes (missing : bool) (down : list string) : Processes := {|
  run_process args fs :=
    match args with
    | "curl"%string :: _ =>
        if missing then (NotStarted "No such file or directory: 'curl'", fs)
        else if existsb (fun u => bool_decide (u ∈ down)) args then (Exited 22, fs)
        else (Exited 0, <[demo_target args := Gz (XmlDoc (mkElement (Some (lit "JMnedict")) None []))]> fs)
    | _ => (Exited 0, fs)
    end
|}.

Definition empty_world : world := mkWorld ∅ [] [] 0.

(** ** Definitions used by the statements *)

(** The loop over the children of an element, as [iterparse_for] runs it. *)
Fixpoint visit_children {S} (body : Element -> S -> result (Element * S))
         (l : list Element) (st : S) : result (list Element * S) :=
  match l with
  | [] => Ok ([], st)
  | c :: l' =>
      '(c', st') ← iterparse_for body c st;
      '(l'', st'') ← visit_children body l' st';
      Ok (c' :: l'', st'')
  end.

(** Two loop bodies that, from related states, leave the same element and
    related states, or raise the same exception, make loops that do. *)
Definition sim_result {A B} (Rel : A -> B -> Prop)
           (r1 : result (Element * A)) (r2 : result (Element * B)) : Prop :=
  match r1, r2 with
  | Ok (e1, a), Ok (e2, b) => e1 = e2 /\ Rel a b
  | Raise x, Raise y => x = y
  | _, _ => False
  end.

(** An entry whose kana readings are あいこ and あいこたろう. *)
Definition aiko_entry : Element :=
  mkElement (Some (lit "entry")) None
    [ mkElement (Some (lit "r_ele")) None
        [ mkElement (Some (lit "reb")) (Some aiko) [] ];
      mkElement (Some (lit "r_ele")) None
        [ mkElement (Some (lit "reb")) (Some aikotarou) [] ] ].

(** A data directory whose dictionary holds the entry of あいこ. *)
Definition demo_dictionary : Element :=
  mkElement (Some (lit "JMnedict")) None [aiko_entry].

Definition demo_files : gmap string file :=
  {[ "data/JMnedict.xml"%string := XmlDoc demo_dictionary ]}.

(** A data directory whose dictionary has no entry. *)
Definition empty_dictionary_files : gmap string file :=
  {[ "data/JMnedict.xml"%string := XmlDoc (mkElement (Some (lit "JMnedict")) None []) ]}.

(** A data directory that is complete, with a cache file that holds one
    empty line. *)
Definition census : file :=
  CsvTable [("name"%string, [CellStr (lit "SMITH"); CellOther])].

Definition blank_cache_world : world :=
  mkWorld {[ jp_names_path := Text [10];
             jm_xml := XmlDoc demo_dictionary;
             "data/Names_2010Census.csv"%string := census ]} [] [] 0.

(** The same directory with a cache file that holds one name. *)
Definition ready_world : world :=
  mkWorld {[ jp_names_path := Text (lit "Aiko" ++ [10]);
             jm_xml := XmlDoc demo_dictionary;
             "data/Names_2010Census.csv"%string := census ]} [] [] 0.

Section LoopSets.
Context {UC : UnicodeCase} {KKS : Kakasi}.

(** What an iteration does to the two sets: nothing, or it adds the
    accepted romanization of the chosen base to the set its
    classification names. *)
Definition adds_candidate (elem : Element) (st st' : parse_state) : Prop :=
  exists base,
    choose_base (kana_readings elem) (kanji_readings elem) = Ok base
    /\ valid_romaji (to_romaji base) = true
    /\ if has_name_type elem
       then given_names st' = {[to_romaji base]} ∪ given_names st
            /\ fallback_candidates st' = fallback_candidates st
       else given_names st' = given_names st
            /\ fallback_candidates st' = {[to_romaji base]} ∪ fallback_candidates st.

Definition same_sets (st st' : parse_state) : Prop :=
  given_names st' = given_names st
  /\ fallback_candidates st' = fallback_candidates st.

End LoopSets.

Section CaseTables.
Context {UC : UnicodeCase}.

(** The case mappings of a character that is not white space are not empty
    and do not end in white space. *)
Definition case_keeps_nonspace : Prop :=
  (forall c, py_isspace c = false ->
     exists d, last (uc_title_full c) = Some d /\ py_isspace d = false)
  /\ (forall s i c, py_isspace c = false ->
     exists d, last (uc_lower s i c) = Some d /\ py_isspace d = false).

End CaseTables.

(** The [curl] command of a source. *)
Definition source_args (s : string * bool * string) : list string :=
  curl_args s.1.1 s.2 s.1.2.

Definition after_process (args : list string) (fs : gmap string file)
           (w : world) : world :=
  mkWorld fs (stdout w) (spawned w ++ [args]) (rng w).

(** What a run of the loop leaves behind, by the way it ends. *)
Definition chain_outcome (srcs : list (string * bool * string))
           (last_error : option exn) (w : world) (r : result unit) (w' : world)
  : Prop :=
  match r with
  | Ok _ =>
      exists n, (1 <= n <= length srcs)%nat
        /\ spawned w' = spawned w ++ List.map source_args (take n srcs)
  | Raise (RuntimeError msg cause) =>
      msg = "All JMnedict sources failed"%string
      /\ spawned w' = spawned w ++ List.map source_args srcs
      /\ match last srcs with
         | None => cause = last_error
         | Some s => exists code, code <> 0%Z
                       /\ cause = Some (CalledProcessError code (source_args s))
         end
  | Raise (OSError _) =>
      exists n, (1 <= n <= length srcs)%nat
        /\ spawned w' = spawned w ++ List.map source_args (take n srcs)
  | Raise _ => False
  end.

(** The first and the second source of the list. *)
Definition first_source : string * bool * string :=
  ("https://ftp.edrdg.org/pub/Nihongo/JMnedict.xml.gz", true, jm_gz)%string.
Definition second_source : string * bool * string :=
  ("https://ftp.usf.edu/pub/ftp.monash.edu.au/pub/nihongo/JMnedict.xml.gz", false, jm_gz)%string.

(** [for name in names: save_to_jp_names_file(name)] *)
Fixpoint save_each (names : list pystr) : io unit :=
  match names with
  | [] => mret tt
  | name :: rest => save_to_jp_names_file name;; save_each rest
  end.

(** The text of the cache file: empty when the file is absent, none when the
    file is not text. *)
Definition cache_text (fs : gmap string file) : option pystr :=
  match fs !! jp_names_path with
  | None => Some []
  | Some (Text content) => Some content
  | Some _ => None
  end.

(** What [load_from_jp_names_file] makes of a text. *)
Definition names_of_text (content : pystr) : list pystr :=
  List.map py_strip
    (List.filter (fun line => negb (is_nil (py_strip line))) (readlines content)).

(** A character that can stand inside a line of the cache. *)
Definition line_char (c : N) : bool := negb (is_newline c) && negb (is_surrogate c).

(** ** Further vocabulary: the walk over the document *)

Section Walk.
Context {UC : UnicodeCase}.

(** Every element of [e] whose tag ends with ["entry"] is cleared: it has no
    text and no children. *)
Definition released (e : Element) : Prop :=
  Forall (fun d => _ends (tag d) "entry" = true -> text d = None /\ children d = [])
         (iter e).

(** The number of elements of [e] whose tag ends with ["entry"]. *)
Definition count_entries (e : Element) : nat :=
  length (List.filter (fun d => _ends (tag d) "entry") (iter e)).

(** What the walk over an element does to it and to the counters. *)
Definition walked (e : Element) (st : parse_state) (e' : Element)
           (st' : parse_state) : Prop :=
  tag e' = tag e /\ released e'
  /\ total_entries st' = (total_entries st + length (iter e))%nat
  /\ processed_entries st' = (processed_entries st + count_entries e)%nat.

End Walk.

(** The children of an element are handed to the loop one after the other:
    [chain R l s l' s'] relates each child, the state before it, the child as
    the loop leaves it and the state after it by [R]. *)
Fixpoint chain {S} (R : Element -> S -> Element -> S -> Prop)
         (l : list Element) (s : S) (l' : list Element) (s' : S) : Prop :=
  match l, l' with
  | [], [] => s = s'
  | c :: l, c' :: l' => exists s1, R c s c' s1 /\ chain R l s1 l' s'
  | _, _ => False
  end.

(** A document with an entry nested in an entry. *)
Definition nested_entry : Element :=
  mkElement (Some (lit "entry")) None
    [ mkElement (Some (lit "reb")) (Some aikotarou) [];
      aiko_entry ].

(** ** Further vocabulary: files and commands *)

(** The temporary file of the zip extraction. *)
Definition jm_tmp : string := "data/JMnedict.xml.tmp".

Definition census_zip : string := "data/us_surnames.zip".
Definition census_csv : string := "data/Names_2010Census.csv".

(** The two commands of [_extract_census_data]. *)
Definition census_curl : list string :=
  curl_args "https://www2.census.gov/topics/genealogy/2010surnames/names.zip"
            census_zip false.
Definition census_unzip : list string :=
  ["unzip"; "-j"; census_zip; "-d"; "data"]%string.

(** The text of a cache that holds the given names, one per line. *)
Definition lines_of (names : list pystr) : pystr :=
  List.concat (List.map (fun n => n ++ [10]) names).

(** A text that is empty or ends with a line feed. *)
Definition ends_lines (content : pystr) : Prop :=
  content = [] \/ last content = Some 10.



(** A data directory with the dictionary inside a zip archive. *)
Definition zip_world : world :=
  mkWorld {[ jm_zip := ZipArchive [(lit "EDRDG/JMnedict.xml", XmlDoc demo_dictionary)] ]}
          [] [] 0.

(** A data directory with the dictionary and the census, without cache. *)
Definition fresh_world : world :=
  mkWorld {[ jm_xml := XmlDoc demo_dictionary; census_csv := census ]} [] [] 0.

(** The message of [main] when no name is available. *)
Definition no_names_message : pystr :=
  lit "No Japanese names available. Please check data files.".

(** [result.lower().replace(" ", "-")] *)
Definition slug_of {UC : UnicodeCase} (result : pystr) : pystr :=
  py_replace_char 32 (lit "-") (py_lower result).

(** The names an element and its descendants contribute when they are
    walked on their own. *)
Definition collected {UC : UnicodeCase} {KKS : Kakasi} (e : Element) : gset pystr :=
  match blind_loop e with
  | Ok names => names
  | Raise _ => ∅
  end.

(** A dictionary with the entry of あいこ and a nested entry, in two orders. *)
Definition two_entries : list Element := [aiko_entry; nested_entry].
Definition two_entries_swapped : list Element := [nested_entry; aiko_entry].

(** * Properties *)

(** ** The matcher decides the language of the pattern *)

Lemma nullable_lang (r : regex) : nullable r = true <-> lang r [].
Proof.
  induction r as [| |rs|r1 IH1 r2 IH2|r1 IH1 r2 IH2|r IH|r IH]; simpl.
  - split; [discriminate | tauto].
  - tauto.
  - split; [discriminate | intros (c & Hc & _); discriminate].
  - rewrite andb_true_iff, IH1, IH2. split.
    + intros [H1 H2]. exists [], []. auto.
    + intros (s1 & s2 & Hs & H1 & H2).
      symmetry in Hs. apply app_eq_nil in Hs as [-> ->]. auto.
  - rewrite orb_true_iff, IH1, IH2. tauto.
  - split; [intros _ | reflexivity]. exists []. split; [reflexivity | constructor].
  - rewrite IH. split.
    + intros H. exists [], []. repeat split; [assumption | constructor].
    + intros (s1 & ss & Hs & H1 & _).
      symmetry in Hs. apply app_eq_nil in Hs as [-> _]. assumption.
Qed.

(** A non-empty match of [r*] starts with a non-empty match of [r]. *)
Lemma star_cons (r : regex) (c : N) (s : pystr) :
  lang (Star r) (c :: s) <->
  exists s1 s2, s = s1 ++ s2 /\ lang r (c :: s1) /\ lang (Star r) s2.
Proof.
  simpl. split.
  - intros (ss & Hs & Hall). revert Hs.
    induction Hall as [|w ss Hw Hall IH]; simpl; intros Hs; [discriminate|].
    destruct w as [|d w]; simpl in Hs; [auto|].
    injection Hs as <- ->. exists w, (List.concat ss). eauto.
  - intros (s1 & s2 & -> & H1 & ss & -> & Hall).
    exists ((c :: s1) :: ss). split; [reflexivity | constructor; assumption].
Qed.

Lemma plus_cons (r : regex) (c : N) (s : pystr) :
  lang (Plus r) (c :: s) <-> lang (Star r) (c :: s).
Proof.
  split.
  - simpl. intros (s1 & ss & Hs & H1 & Hall).
    exists (s1 :: ss). split; [assumption | constructor; assumption].
  - intros H. apply star_cons in H as (s1 & s2 & -> & H1 & ss & -> & Hall).
    simpl. exists (c :: s1), ss. auto.
Qed.

Lemma deriv_lang (c : N) (r : regex) :
  forall s, lang (deriv c r) s <-> lang r (c :: s).
Proof.
  induction r as [| |rs|r1 IH1 r2 IH2|r1 IH1 r2 IH2|r IH|r IH]; intros s.
  - simpl. tauto.
  - simpl. split; [tauto | discriminate].
  - simpl. destruct (in_class rs c) eqn:Hc; simpl.
    + split.
      * intros ->. eauto.
      * intros (d & Hd & _). injection Hd as _ ->. reflexivity.
    + split; [tauto|]. intros (d & Hd & Hin). injection Hd as -> _. congruence.
  - assert (Hcat : lang (Cat (deriv c r1) r2) s <->
                   exists s1 s2, s = s1 ++ s2 /\ lang r1 (c :: s1) /\ lang r2 s2).
    { simpl. split; intros (s1 & s2 & Hs & H1 & H2); exists s1, s2;
        (repeat split; [assumption | apply IH1; assumption | assumption]). }
    assert (Hsplit : lang (Cat r1 r2) (c :: s) <->
                     (exists s1 s2, s = s1 ++ s2 /\ lang r1 (c :: s1) /\ lang r2 s2)
                     \/ (lang r1 [] /\ lang r2 (c :: s))).
    { simpl. split.
      - intros (s1 & s2 & Hs & H1 & H2). destruct s1 as [|d s1]; simpl in Hs.
        + right. subst s2. auto.
        + left. injection Hs as <- ->. eauto.
      - intros [(s1 & s2 & -> & H1 & H2) | [H1 H2]].
        + exists (c :: s1), s2. auto.
        + exists [], (c :: s). auto. }
    rewrite Hsplit. cbn [deriv]. destruct (nullable r1) eqn:Hn.
    + cbn [lang]. fold (lang (Cat (deriv c r1) r2) s). rewrite Hcat, IH2.
      apply nullable_lang in Hn. tauto.
    + rewrite Hcat. split; [tauto|]. intros [H | [H _]]; [assumption|].
      apply nullable_lang in H. congruence.
  - simpl. rewrite IH1, IH2. tauto.
  - rewrite star_cons. cbn [deriv lang]. split;
      intros (s1 & s2 & Hs & H1 & H2); exists s1, s2;
      (repeat split; [assumption | apply IH; assumption | assumption]).
  - rewrite plus_cons, star_cons. cbn [deriv lang]. split;
      intros (s1 & s2 & Hs & H1 & H2); exists s1, s2;
      (repeat split; [assumption | apply IH; assumption | assumption]).
Qed.

Lemma re_fullmatch_lang (s : pystr) :
  forall r, re_fullmatch r s = true <-> lang r s.
Proof.
  induction s as [|c s IH]; intros r; simpl.
  - apply nullable_lang.
  - rewrite IH. apply deriv_lang.
Qed.

(** [[...]*] matches the strings made of characters of the class. *)
Lemma star_class_lang (rs : list (N * N)) (s : pystr) :
  lang (Star (Class rs)) s <-> Forall (fun c => in_class rs c = true) s.
Proof.
  split.
  - simpl. intros (ss & -> & Hall).
    induction Hall as [|w ss (c & -> & Hc) _ IH]; simpl; [constructor|].
    constructor; assumption.
  - intros Hall. simpl. exists (List.map (fun c => [c]) s). split.
    + induction s as [|c s IH]; simpl; [reflexivity|]. f_equal.
      apply IH. inversion Hall; assumption.
    + induction Hall as [|c s Hc _ IH]; simpl; constructor; eauto.
Qed.

Lemma kana_re_spec (s : pystr) :
  re_fullmatch kana_re s = true <-> s <> [] /\ forallb is_kana_char s = true.
Proof.
  rewrite re_fullmatch_lang. unfold kana_re. destruct s as [|c s].
  - split.
    + simpl. intros (s1 & ss & Hs & (d & -> & _) & _). discriminate.
    + intros [H _]. congruence.
  - rewrite plus_cons, star_class_lang, forallb_forall, Forall_forall.
    split.
    + intros H. split; [discriminate|]. intros x Hx.
      apply list_elem_of_In, H in Hx. unfold in_class in Hx. simpl in Hx.
      rewrite orb_false_r in Hx. exact Hx.
    + intros [_ H] x Hx. apply list_elem_of_In, H in Hx.
      unfold in_class. simpl. rewrite orb_false_r. exact Hx.
Qed.

Lemma name_re_spec (s : pystr) :
  re_fullmatch name_re s = true <-> name_shaped s.
Proof.
  rewrite re_fullmatch_lang. unfold name_re, name_shaped.
  assert (Hl : forall c, in_class [(0x41, 0x5A); (0x61, 0x7A)] c = is_letter c).
  { intros c. unfold in_class, is_letter. simpl. rewrite orb_false_r. reflexivity. }
  assert (Hn : forall c, in_class [(0x41, 0x5A); (0x61, 0x7A); (0x27, 0x27);
                                   (0x20, 0x20); (0x2D, 0x2D)] c = is_name_char c).
  { intros c. unfold in_class, is_name_char, is_letter, in_range. simpl.
    destruct (0x41 <=? c) eqn:E1, (c <=? 0x5A) eqn:E2, (0x61 <=? c) eqn:E3,
      (c <=? 0x7A) eqn:E4, (0x27 <=? c) eqn:E5, (c <=? 0x27) eqn:E6,
      (0x20 <=? c) eqn:E7, (c <=? 0x20) eqn:E8, (0x2D <=? c) eqn:E9,
      (c <=? 0x2D) eqn:E10, (c =? 0x27) eqn:E11, (c =? 0x2D) eqn:E12,
      (c =? 0x20) eqn:E13; simpl; try reflexivity;
      rewrite ?N.leb_le, ?N.leb_gt, ?N.eqb_eq, ?N.eqb_neq in *; lia. }
  cbn [lang]. split.
  - intros (s1 & s2 & -> & (c & -> & Hc) & H2).
    exists c, s2. split; [reflexivity|]. rewrite <- Hl. split; [assumption|].
    change (lang (Star (Class [(0x41, 0x5A); (0x61, 0x7A); (0x27, 0x27);
                               (0x20, 0x20); (0x2D, 0x2D)])) s2) in H2.
    apply star_class_lang in H2. eapply Forall_impl; [exact H2|].
    intros d Hd. simpl in Hd. rewrite <- Hn. exact Hd.
  - intros (c & rest & -> & Hc & Hrest).
    exists [c], rest. split; [reflexivity|]. split.
    + exists c. rewrite Hl. auto.
    + change (lang (Star (Class [(0x41, 0x5A); (0x61, 0x7A); (0x27, 0x27);
                                 (0x20, 0x20); (0x2D, 0x2D)])) rest).
      apply star_class_lang. eapply Forall_impl; [exact Hrest|].
      intros d Hd. simpl in Hd. rewrite Hn. exact Hd.
Qed.

(** ** The minimum by length *)

Lemma first_shortest_le (b x : pystr) (l : list pystr) :
  first_shortest b l -> In x l -> (length b <= length x)%nat.
Proof.
  intros (pre & post & -> & Hpre & Hpost) Hx.
  rewrite Forall_forall in Hpre, Hpost.
  apply in_app_or in Hx as [Hx | [<- | Hx]].
  - apply list_elem_of_In, Hpre in Hx. lia.
  - lia.
  - apply list_elem_of_In, Hpost in Hx. lia.
Qed.

Lemma min_from_first_shortest (l : list pystr) :
  forall best, first_shortest (min_from best l) (best :: l).
Proof.
  induction l as [|x l IH]; intros best; simpl.
  - exists [], []. repeat split; constructor.
  - destruct (length x <? length best)%nat eqn:Hlt.
    + apply Nat.ltb_lt in Hlt.
      pose proof (IH x) as Hm.
      assert (Hle : (length (min_from x l) <= length x)%nat).
      { eapply first_shortest_le; [exact Hm | left; reflexivity]. }
      destruct Hm as (pre & post & Heq & Hpre & Hpost).
      exists (best :: pre), post. rewrite Heq. repeat split; [|assumption].
      constructor; [lia | assumption].
    + apply Nat.ltb_ge in Hlt.
      destruct (IH best) as (pre & post & Heq & Hpre & Hpost).
      destruct pre as [|p pre]; simpl in Heq.
      * injection Heq as Hb Hl. exists [], (x :: l).
        rewrite <- Hb in *. subst post.
        repeat split; [constructor|]. constructor; [lia | exact Hpost].
      * injection Heq as Hp Hl. subst p.
        exists (best :: x :: pre), post.
        inversion Hpre as [|? ? Hp Hpre']; subst.
        split; [simpl; do 2 f_equal; exact Hl|].
        split; [|exact Hpost].
        constructor; [exact Hp|]. constructor; [lia | exact Hpre'].
Qed.

Lemma py_min_len_first_shortest (l : list pystr) :
  l <> [] -> exists b, py_min_len l = Ok b /\ first_shortest b l.
Proof.
  destruct l as [|x l]; [congruence|]. intros _.
  exists (min_from x l). split; [reflexivity | apply min_from_first_shortest].
Qed.

Lemma list_or_nonempty {A} (a b : list A) : b <> [] -> list_or a b <> [].
Proof. destruct a; simpl; [auto | discriminate]. Qed.

Lemma is_nil_true {A} (l : list A) : is_nil l = true <-> l = [].
Proof. destruct l; simpl; split; congruence. Qed.

Lemma is_nil_false {A} (l : list A) : is_nil l = false <-> l <> [].
Proof. destruct l; simpl; split; congruence. Qed.

Section ExtractionFacts.
Context {UC : UnicodeCase} {KKS : Kakasi}.

(** Every collected reading is a non-empty string. *)
Lemma readings_nonempty (name : string) (elem : Element) :
  Forall (fun r => r <> []) (readings name elem).
Proof.
  unfold readings. apply Forall_forall. intros r Hr.
  apply list_elem_of_In, in_map_iff in Hr as (e & <- & He).
  apply List.filter_In in He as [_ He].
  apply andb_true_iff in He as [_ He].
  unfold text_or_empty. destruct (text e) as [[|c s]|]; simpl in *; congruence.
Qed.

(** On non-empty strings the pattern of line 185 selects the strings made
    of kana characters only. *)
Lemma only_kana_filter (l : list pystr) :
  Forall (fun r => r <> []) l ->
  only_kana l = List.filter (forallb is_kana_char) l.
Proof.
  unfold only_kana. induction 1 as [|r l Hr _ IH]; simpl; [reflexivity|].
  rewrite IH. destruct (re_fullmatch kana_re r) eqn:Hm.
  - apply kana_re_spec in Hm as [_ ->]. reflexivity.
  - destruct (forallb is_kana_char r) eqn:Hk; [|reflexivity].
    assert (re_fullmatch kana_re r = true) by (apply kana_re_spec; auto).
    congruence.
Qed.

Lemma choose_base_ok (kana kanji : list pystr) :
  ~ (kana = [] /\ kanji = []) -> exists base, choose_base kana kanji = Ok base.
Proof.
  intros Hne. unfold choose_base. destruct kana as [|k kana].
  - destruct kanji as [|j kanji]; [exfalso; auto|].
    simpl. eexists. reflexivity.
  - cbn [is_nil negb].
    destruct (only_kana (k :: kana)); cbn [list_or py_min_len];
      eexists; reflexivity.
Qed.

(** The loop body never raises. *)
Lemma loop_body_ok (elem : Element) (st : parse_state) :
  exists r, loop_body elem st = Ok r.
Proof.
  unfold loop_body. destruct (negb (_ends (tag elem) "entry")); [eauto|].
  destruct (is_nil (kana_readings elem) && is_nil (kanji_readings elem)) eqn:Hnil;
    [eauto|].
  destruct (choose_base_ok (kana_readings elem) (kanji_readings elem)) as [b Hb].
  { intros [H1 H2]. rewrite H1, H2 in Hnil. discriminate. }
  rewrite Hb. simpl.
  destruct (negb (valid_romaji (to_romaji b))); [eauto|].
  destruct (has_name_type elem); eauto.
Qed.
End ExtractionFacts.

(** C1.  Reading selection.  For an entry with at least one kana reading the
    base is the first shortest reading among the kana readings made of
    Hiragana/Katakana characters only, or among all kana readings when none
    is; for an entry with no kana reading and at least one kanji reading it
    is the first shortest kanji reading.  With the kana readings あいこ and
    あいこたろう the base is あいこ. *)
Theorem reading_selection {UC : UnicodeCase} {KKS : Kakasi} (elem : Element) :
  let kana := kana_readings elem in
  let kanji := kanji_readings elem in
  let subset := List.filter (forallb is_kana_char) kana in
  (kana <> [] ->
     exists base, choose_base kana kanji = Ok base
       /\ first_shortest base (if is_nil subset then kana else subset))
  /\ (kana = [] -> kanji <> [] ->
     exists base, choose_base kana kanji = Ok base /\ first_shortest base kanji)
  /\ (kana = [aiko; aikotarou] -> choose_base kana kanji = Ok aiko).
Proof.
  intros kana kanji subset. repeat split.
  - intros Hne. unfold choose_base.
    apply is_nil_false in Hne as Hn. rewrite Hn. simpl.
    assert (Hsub : only_kana kana = subset).
    { apply only_kana_filter, readings_nonempty. }
    rewrite Hsub.
    replace (list_or subset kana) with (if is_nil subset then kana else subset)
      by (destruct subset; reflexivity).
    apply py_min_len_first_shortest.
    destruct subset eqn:Hs; simpl; [assumption | discriminate].
  - intros Hk Hne. unfold choose_base. rewrite Hk. simpl.
    apply py_min_len_first_shortest. assumption.
  - intros Hk. unfold choose_base. rewrite Hk. reflexivity.
Qed.

Lemma reading_selection_witness :
  @kana_readings ascii_case aiko_entry = [aiko; aikotarou]
  /\ @choose_base [aiko; aikotarou] (@kanji_readings ascii_case aiko_entry) = Ok aiko.
Proof.
  split; [reflexivity|].
  exact (proj2 (proj2 (@reading_selection ascii_case demo_kakasi aiko_entry)) eq_refl).
Defined.

(** ** The event loop *)

Lemma Element_forall_ind (P : Element -> Prop) :
  (forall t x cs, Forall P cs -> P (mkElement t x cs)) -> forall e, P e.
Proof.
  intros H. fix IH 1. intros [t x cs]. apply H.
  induction cs as [|c cs IHcs]; constructor; [apply IH | exact IHcs].
Qed.

Lemma iterparse_for_unfold {S} (body : Element -> S -> result (Element * S))
      t x cs (st : S) :
  iterparse_for body (mkElement t x cs) st =
  ('(cs', st1) ← visit_children body cs st; body (mkElement t x cs') st1).
Proof.
  simpl. f_equal.
  induction cs as [|c cs IH] in st |- *; simpl; [reflexivity|].
  destruct (iterparse_for body c st) as [[c' st']|]; simpl; [|reflexivity].
  unfold mbind, result_bind in IH. rewrite IH. reflexivity.
Qed.

(** A loop body that never raises and keeps an invariant makes a loop that
    never raises and keeps it. *)
Lemma iterparse_for_total {S} (body : Element -> S -> result (Element * S))
      (I : S -> Prop) :
  (forall e s, I s -> exists e' s', body e s = Ok (e', s') /\ I s') ->
  forall e s, I s -> exists e' s', iterparse_for body e s = Ok (e', s') /\ I s'.
Proof.
  intros Hbody. induction e as [t x cs IHcs] using Element_forall_ind.
  intros s Hs. rewrite iterparse_for_unfold.
  assert (Hcs : exists cs' s', visit_children body cs s = Ok (cs', s') /\ I s').
  { clear t x. induction IHcs as [|c cs Hc _ IH] in s, Hs |- *; simpl; [eauto|].
    destruct (Hc s Hs) as (c' & s1 & -> & Hs1). simpl.
    destruct (IH s1 Hs1) as (cs' & s2 & -> & Hs2). simpl. eauto. }
  destruct Hcs as (cs' & s' & -> & Hs'). simpl. apply Hbody, Hs'.
Qed.

Lemma iterparse_for_sim {S T} (b1 : Element -> S -> result (Element * S))
      (b2 : Element -> T -> result (Element * T)) (Rel : S -> T -> Prop) :
  (forall e s t, Rel s t -> sim_result Rel (b1 e s) (b2 e t)) ->
  forall e s t, Rel s t -> sim_result Rel (iterparse_for b1 e s) (iterparse_for b2 e t).
Proof.
  intros Hbody. induction e as [tg x cs IHcs] using Element_forall_ind.
  intros s t Hst. rewrite !iterparse_for_unfold.
  assert (Hcs : match visit_children b1 cs s, visit_children b2 cs t with
                | Ok (l1, a), Ok (l2, b) => l1 = l2 /\ Rel a b
                | Raise u, Raise v => u = v
                | _, _ => False
                end).
  { clear tg x. induction IHcs as [|c cs Hc _ IH] in s, t, Hst |- *; simpl; [auto|].
    specialize (Hc s t Hst). unfold sim_result in Hc.
    destruct (iterparse_for b1 c s) as [[c1 s1]|u],
             (iterparse_for b2 c t) as [[c2 t1]|v]; simpl; try tauto.
    destruct Hc as [<- H1]. specialize (IH s1 t1 H1).
    destruct (visit_children b1 cs s1) as [[l1 s2]|u],
             (visit_children b2 cs t1) as [[l2 t2]|v]; simpl; try tauto.
    destruct IH as [<- H2]. auto. }
  destruct (visit_children b1 cs s) as [[l1 s1]|u],
           (visit_children b2 cs t) as [[l2 t1]|v]; simpl; try tauto.
  destruct Hcs as [<- H1]. apply Hbody, H1.
Qed.

(** ** Sorting *)

#[global] Instance str_le_total : Total str_le.
Proof.
  intros s. unfold str_le. induction s as [|a s IH]; intros [|b t]; simpl; auto.
  destruct (N.compare_spec a b) as [->|Hlt|Hgt].
  - rewrite N.eqb_refl, N.ltb_irrefl. simpl. apply IH.
  - left. apply N.ltb_lt in Hlt. rewrite Hlt. reflexivity.
  - right. apply N.ltb_lt in Hgt. rewrite Hgt. reflexivity.
Qed.

#[global] Instance str_le_trans : Transitive str_le.
Proof.
  unfold str_le. intros s. induction s as [|a s IH]; intros [|b t] [|c u];
    simpl; try congruence.
  rewrite !orb_true_iff, !andb_true_iff, !N.ltb_lt, !N.eqb_eq.
  intros [H1 | [-> H1]] [H2 | [-> H2]]; try (left; lia); auto.
  right. split; [reflexivity|]. eapply IH; eassumption.
Qed.

Lemma str_le_antisym (s t : pystr) : str_le s t -> str_le t s -> s = t.
Proof.
  unfold str_le. revert t. induction s as [|a s IH]; intros [|b t]; simpl;
    try congruence.
  rewrite !orb_true_iff, !andb_true_iff, !N.ltb_lt, !N.eqb_eq.
  intros [H1 | [-> H1]] [H2 | [H H2]]; try lia.
  f_equal. apply IH; assumption.
Qed.

(** [sorted] of the elements of a set: in order, without repetition, with
    the members of the set and nothing else. *)
Lemma py_sorted_elements (X : gset pystr) :
  StronglySorted str_le (py_sorted (elements X))
  /\ NoDup (py_sorted (elements X))
  /\ (forall x, x ∈ py_sorted (elements X) <-> x ∈ X).
Proof.
  unfold py_sorted. split; [apply StronglySorted_merge_sort; apply _|]. split.
  - rewrite merge_sort_Permutation. apply NoDup_elements.
  - intros x. rewrite merge_sort_Permutation. apply elem_of_elements.
Qed.

(** ** One iteration of the extraction loop *)

Section LoopBody.
Context {UC : UnicodeCase} {KKS : Kakasi}.

(** The test of lines 192-194 in the words of the specification. *)
Lemma valid_romaji_spec (romaji : pystr) :
  valid_romaji romaji = true <->
  (2 <= length romaji <= 14)%nat /\ name_shaped romaji.
Proof.
  unfold valid_romaji.
  rewrite !andb_true_iff, !Nat.leb_le, name_re_spec. tauto.
Qed.

Lemma loop_body_cases (elem : Element) (st : parse_state) :
  exists e' st', loop_body elem st = Ok (e', st')
    /\ (same_sets st st' \/ adds_candidate elem st st').
Proof.
  unfold loop_body, same_sets.
  destruct (negb (_ends (tag elem) "entry")); [simpl; eauto 6|].
  destruct (is_nil (kana_readings elem) && is_nil (kanji_readings elem)) eqn:Hnil;
    [simpl; eauto 6|].
  destruct (choose_base_ok (kana_readings elem) (kanji_readings elem)) as [b Hb].
  { intros [H1 H2]. rewrite H1, H2 in Hnil. discriminate. }
  rewrite Hb. simpl.
  destruct (valid_romaji (to_romaji b)) eqn:Hv; simpl; [|eauto 6].
  destruct (has_name_type elem) eqn:Hg; do 2 eexists; (split; [reflexivity|]);
    right; exists b; rewrite Hg; simpl; auto.
Qed.
End LoopBody.

(** C2.  Candidate validation.  A romanized string is accepted exactly when
    its length is between 2 and 14 and it is one Latin letter followed by
    letters, apostrophes, hyphens and spaces; an accepted string is added to
    the set named by the classification of the entry and a rejected one
    leaves both sets as they were, without raising.  The boundary cases of
    the specification are evaluated. *)
Theorem candidate_validation {UC : UnicodeCase} {KKS : Kakasi} :
  (forall romaji, valid_romaji romaji = true <->
                  (2 <= length romaji <= 14)%nat /\ name_shaped romaji)
  /\ (forall elem st base,
        _ends (tag elem) "entry" = true ->
        choose_base (kana_readings elem) (kanji_readings elem) = Ok base ->
        ~ (kana_readings elem = [] /\ kanji_readings elem = []) ->
        exists st', loop_body elem st = Ok (clear elem, st')
          /\ if valid_romaji (to_romaji base)
             then if has_name_type elem
                  then given_names st' = {[to_romaji base]} ∪ given_names st
                       /\ fallback_candidates st' = fallback_candidates st
                  else given_names st' = given_names st
                       /\ fallback_candidates st' = {[to_romaji base]} ∪ fallback_candidates st
             else given_names st' = given_names st
                  /\ fallback_candidates st' = fallback_candidates st)
  /\ valid_romaji (lit "A") = false
  /\ valid_romaji (lit "Ai") = true
  /\ valid_romaji (lit "Abcdefghijklmn") = true
  /\ valid_romaji (lit "Abcdefghijklmno") = false
  /\ valid_romaji (lit "O'Brien") = true
  /\ valid_romaji (lit "OBrien") = true
  /\ valid_romaji (lit "1Brien") = false
  /\ valid_romaji (lit "-Brien") = false.
Proof.
  split; [exact valid_romaji_spec|].
  split; [|repeat split; reflexivity].
  intros elem st base Hentry Hbase Hne. unfold loop_body.
  rewrite Hentry. simpl.
  destruct (is_nil (kana_readings elem) && is_nil (kanji_readings elem)) eqn:Hnil.
  { apply andb_true_iff in Hnil as [H1 H2].
    apply is_nil_true in H1, H2. tauto. }
  rewrite Hbase. simpl.
  destruct (valid_romaji (to_romaji base)); simpl; [|eauto].
  destruct (has_name_type elem); simpl; eauto.
Qed.

Lemma candidate_validation_witness :
  exists st', @loop_body ascii_case demo_kakasi aiko_entry init_state
              = Ok (clear aiko_entry, st')
    /\ given_names st' = ∅
    /\ fallback_candidates st' = {[lit "Aiko"]} ∪ ∅.
Proof.
  destruct (proj1 (proj2 (@candidate_validation ascii_case demo_kakasi))
              aiko_entry init_state aiko) as (st' & Hst & Hsets).
  - reflexivity.
  - reflexivity.
  - intros [H _]. discriminate H.
  - exists st'. split; [exact Hst|]. exact Hsets.
Defined.

(** C9.  The minimum by length is never taken of an empty sequence: with a
    kana reading the argument [only_kana or kana_readings] is not empty,
    the kanji branch is reached only with a kanji reading, and so no
    iteration of the loop raises. *)
Theorem min_argument_nonempty {UC : UnicodeCase} {KKS : Kakasi}
        (elem : Element) (st : parse_state) :
  let kana := kana_readings elem in
  let kanji := kanji_readings elem in
  (kana <> [] -> list_or (only_kana kana) kana <> [])
  /\ (is_nil kana && is_nil kanji = false -> kana = [] -> kanji <> [])
  /\ (is_nil kana && is_nil kanji = false ->
      exists base, choose_base kana kanji = Ok base)
  /\ (exists r, loop_body elem st = Ok r).
Proof.
  intros kana kanji. repeat split.
  - apply list_or_nonempty.
  - intros Hnil -> ->. discriminate Hnil.
  - intros Hnil. apply choose_base_ok. intros [H1 H2].
    rewrite H1, H2 in Hnil. discriminate Hnil.
  - apply loop_body_ok.
Qed.

Lemma min_argument_nonempty_witness :
  list_or (only_kana (@kana_readings ascii_case aiko_entry))
          (@kana_readings ascii_case aiko_entry) <> []
  /\ exists base, choose_base (@kana_readings ascii_case aiko_entry)
                              (@kanji_readings ascii_case aiko_entry) = Ok base.
Proof.
  pose proof (@min_argument_nonempty ascii_case demo_kakasi aiko_entry init_state)
    as (H1 & _ & H3 & _).
  split.
  - apply H1. discriminate.
  - apply H3. reflexivity.
Defined.

(** ** Stripping and title-casing *)

Lemma py_lstrip_head (s : pystr) (c : N) :
  head (py_lstrip s) = Some c -> py_isspace c = false.
Proof.
  induction s as [|a s IH]; simpl; [discriminate|].
  destruct (py_isspace a) eqn:Ha; [exact IH|].
  simpl. intros [= <-]. exact Ha.
Qed.

Lemma last_rev_head {A} (l : list A) : last (rev l) = head l.
Proof. destruct l as [|a l]; simpl; [reflexivity | apply last_snoc]. Qed.

Lemma py_strip_last (s : pystr) (c : N) :
  last (py_strip s) = Some c -> py_isspace c = false.
Proof.
  unfold py_strip, py_rstrip. rewrite last_rev_head. apply py_lstrip_head.
Qed.

Lemma is_letter_not_space (c : N) : is_letter c = true -> py_isspace c = false.
Proof.
  unfold is_letter, py_isspace, in_range. intros H.
  rewrite orb_true_iff, !andb_true_iff, !N.leb_le in H.
  repeat (apply orb_false_intro);
    try apply N.eqb_neq; try (apply andb_false_iff; rewrite !N.leb_gt); lia.
Qed.

Section Title.
Context {UC : UnicodeCase}.

Lemma do_title_last (rest : pystr) :
  case_keeps_nonspace ->
  forall s i p c, last rest = Some c -> py_isspace c = false ->
  exists d, last (do_title s i rest p) = Some d /\ py_isspace d = false.
Proof.
  intros [Ht Hl]. induction rest as [|a rest IH]; intros s i p c Hc Hsp;
    [discriminate|].
  simpl. destruct rest as [|b rest].
  - simpl in Hc. injection Hc as ->. simpl. rewrite app_nil_r.
    destruct p; [apply Hl | apply Ht]; exact Hsp.
  - destruct (IH s (S i) (uc_is_cased a) c Hc Hsp) as (d & Hd & Hdsp).
    exists d. split; [|exact Hdsp]. rewrite last_app, Hd. reflexivity.
Qed.

Lemma py_title_strip_last (x : pystr) (d : N) :
  case_keeps_nonspace ->
  last (py_title (py_strip x)) = Some d -> py_isspace d = false.
Proof.
  intros Hcase Hd. unfold py_title in Hd.
  destruct (last (py_strip x)) as [c|] eqn:Hc.
  - destruct (do_title_last (py_strip x) Hcase (py_strip x) 0%nat false c Hc)
      as (d' & Hd' & Hsp); [eapply py_strip_last; exact Hc|].
    congruence.
  - apply last_None in Hc. rewrite Hc in Hd. discriminate Hd.
Qed.
End Title.

Lemma ascii_case_keeps_nonspace : @case_keeps_nonspace ascii_case.
Proof.
  assert (Hu : forall c, py_isspace c = false -> py_isspace (ascii_upper c) = false).
  { intros c Hc. unfold ascii_upper. destruct (in_range 0x61 0x7A c) eqn:Hr; [|exact Hc].
    apply is_letter_not_space. unfold is_letter, in_range in *.
    apply andb_true_iff in Hr as [H1 H2]. apply N.leb_le in H1, H2.
    apply orb_true_iff. left. apply andb_true_iff. rewrite !N.leb_le. lia. }
  assert (Hl : forall c, py_isspace c = false -> py_isspace (ascii_lower c) = false).
  { intros c Hc. unfold ascii_lower. destruct (in_range 0x41 0x5A c) eqn:Hr; [|exact Hc].
    apply is_letter_not_space. unfold is_letter, in_range in *.
    apply andb_true_iff in Hr as [H1 H2]. apply N.leb_le in H1, H2.
    apply orb_true_iff. right. apply andb_true_iff. rewrite !N.leb_le. lia. }
  split; simpl; eauto.
Qed.

Section Trimmed.
Context {UC : UnicodeCase} {KKS : Kakasi}.
Hypothesis Hcase : case_keeps_nonspace.

Lemma valid_romaji_trimmed (base : pystr) :
  valid_romaji (to_romaji base) = true -> trimmed (to_romaji base).
Proof.
  intros Hv. apply valid_romaji_spec in Hv as [_ (c & rest & Heq & Hc & _)].
  split.
  - intros d Hd. rewrite Heq in Hd. injection Hd as <-.
    apply is_letter_not_space, Hc.
  - intros d Hd. unfold to_romaji in Hd.
    eapply py_title_strip_last; [exact Hcase | exact Hd].
Qed.

Lemma loop_body_trimmed (elem : Element) (st : parse_state) :
  (forall n, n ∈ given_names st ∪ fallback_candidates st -> trimmed n) ->
  exists e' st', loop_body elem st = Ok (e', st')
    /\ forall n, n ∈ given_names st' ∪ fallback_candidates st' -> trimmed n.
Proof.
  intros Hinv.
  destruct (loop_body_cases elem st) as (e' & st' & Heq & Hcases).
  exists e', st'. split; [exact Heq|].
  destruct Hcases as [[Hg Hf] | (base & _ & Hv & Hsets)].
  - rewrite Hg, Hf. exact Hinv.
  - intros n Hn. apply valid_romaji_trimmed in Hv.
    assert (Hn' : n = to_romaji base
                  \/ n ∈ given_names st ∪ fallback_candidates st).
    { destruct (has_name_type elem); destruct Hsets as [Hg Hf];
        rewrite Hg, Hf in Hn;
        rewrite !elem_of_union, elem_of_singleton in Hn;
        rewrite elem_of_union; tauto. }
    destruct Hn' as [-> | Hn']; auto.
Qed.

(** C10.  Every name returned by [parse_japanese_names] is free of leading
    and trailing white space, because [to_romaji] strips before it
    title-cases, although the pattern alone accepts a trailing space (the
    string ["Ai "] is accepted by the test and is not trimmed). *)
Theorem names_are_trimmed (fs : gmap string file) (names : list pystr) :
  parse_japanese_names fs = Ok names ->
  (forall n, n ∈ names -> trimmed n)
  /\ valid_romaji (lit "Ai ") = true
  /\ ~ trimmed (lit "Ai ").
Proof.
  intros Hparse. split.
  - unfold parse_japanese_names in Hparse.
    destruct (_open_jmnedict_stream fs) as [f|]; [|discriminate]. simpl in Hparse.
    destruct (iterparse f) as [root|]; [|discriminate]. simpl in Hparse.
    unfold parse_loop in Hparse.
    destruct (iterparse_for_total loop_body
                (fun st => forall n, n ∈ given_names st ∪ fallback_candidates st -> trimmed n)
                loop_body_trimmed root init_state) as (e' & st & Hloop & Hinv).
    { simpl. intros n Hn.
      apply elem_of_union in Hn as [Hn | Hn]; apply elem_of_empty in Hn;
        contradiction. }
    rewrite Hloop in Hparse. simpl in Hparse.
    destruct (decide (given_names st ∪ fallback_candidates st = ∅)) as [|_];
      [discriminate|].
    injection Hparse as <-. intros n Hn.
    apply py_sorted_elements in Hn. auto.
  - split; [reflexivity|].
    intros [_ Hlast]. specialize (Hlast 32 eq_refl). discriminate Hlast.
Qed.
End Trimmed.

Lemma names_are_trimmed_witness :
  @parse_japanese_names ascii_case demo_kakasi demo_files = Ok [lit "Aiko"]
  /\ trimmed (lit "Aiko").
Proof.
  assert (H : @parse_japanese_names ascii_case demo_kakasi demo_files
              = Ok [lit "Aiko"]) by (vm_compute; reflexivity).
  split; [exact H|].
  apply (proj1 (@names_are_trimmed ascii_case demo_kakasi
                  ascii_case_keeps_nonspace demo_files _ H)).
  left.
Defined.

(** ** The result of the extraction *)

Section ParseResult.
Context {UC : UnicodeCase} {KKS : Kakasi}.

(** The loop never raises. *)
Lemma parse_loop_ok (root : Element) : exists st, parse_loop root = Ok st.
Proof.
  unfold parse_loop.
  destruct (iterparse_for_total loop_body (fun _ => True)) with (e := root) (s := init_state)
    as (e' & st & Hloop & _); [|exact I|].
  - intros e s _. destruct (loop_body_ok e s) as [[e' s'] H]. eauto.
  - rewrite Hloop. simpl. eauto.
Qed.

(** The union of the two sets is what the loop without classification
    collects. *)
Lemma loop_body_blind (e : Element) (st : parse_state) (names : gset pystr) :
  given_names st ∪ fallback_candidates st = names ->
  sim_result (fun st names => given_names st ∪ fallback_candidates st = names)
             (loop_body e st) (blind_body e names).
Proof.
  intros Hrel. unfold loop_body, blind_body, sim_result.
  destruct (negb (_ends (tag e) "entry")); [auto|].
  destruct (is_nil (kana_readings e) && is_nil (kanji_readings e)); [auto|].
  destruct (choose_base (kana_readings e) (kanji_readings e)) as [b|]; simpl;
    [|reflexivity].
  destruct (negb (valid_romaji (to_romaji b))); [auto|].
  destruct (has_name_type e); simpl; split; try reflexivity; subst names.
  - symmetry. apply (assoc_L (∪)).
  - rewrite (assoc_L (∪)), (comm_L (∪) (given_names st)), <- (assoc_L (∪)).
    reflexivity.
Qed.

Lemma parse_loop_blind (root : Element) (st : parse_state) :
  parse_loop root = Ok st ->
  blind_loop root = Ok (given_names st ∪ fallback_candidates st).
Proof.
  unfold parse_loop, blind_loop. intros Hloop.
  pose proof (iterparse_for_sim loop_body blind_body
                (fun st names => given_names st ∪ fallback_candidates st = names)
                loop_body_blind root init_state ∅) as Hsim.
  unfold sim_result in Hsim.
  destruct (iterparse_for loop_body root init_state) as [[e1 st1]|]; [|discriminate].
  simpl in Hloop. injection Hloop as ->.
  destruct (iterparse_for blind_body root ∅) as [[e2 names]|].
  - destruct Hsim as [_ <-]; [apply (left_id_L ∅ (∪))|]. reflexivity.
  - exfalso. apply Hsim. apply (left_id_L ∅ (∪)).
Qed.

(** How [parse_japanese_names] ends, by the state the loop ends in. *)
Lemma parse_japanese_names_unfold (fs : gmap string file) :
  parse_japanese_names fs =
  match _open_jmnedict_stream fs with
  | Raise e => Raise e
  | Ok f =>
      match iterparse f with
      | Raise e => Raise e
      | Ok root =>
          match parse_loop root with
          | Raise e => Raise e
          | Ok st =>
              if decide (given_names st ∪ fallback_candidates st = ∅)
              then Raise (RuntimeError "No Japanese names found after parsing." None)
              else Ok (py_sorted (elements (given_names st ∪ fallback_candidates st)))
          end
      end
  end.
Proof.
  unfold parse_japanese_names.
  destruct (_open_jmnedict_stream fs) as [f|]; [simpl|reflexivity].
  destruct (iterparse f) as [root|]; [simpl|reflexivity].
  destruct (parse_loop root) as [st|]; reflexivity.
Qed.
End ParseResult.

(** C3.  Whenever [parse_japanese_names] succeeds, its result is the sorted,
    duplicate-free list of the members of the union of the given-name set
    and the fallback set the loop ends with; and it is the sorted list of
    the set collected by the loop that ignores the classification, so the
    classification does not show in the result. *)
Theorem result_is_sorted_union {UC : UnicodeCase} {KKS : Kakasi}
        (fs : gmap string file) (names : list pystr) :
  parse_japanese_names fs = Ok names ->
  exists f root st,
    _open_jmnedict_stream fs = Ok f
    /\ iterparse f = Ok root
    /\ parse_loop root = Ok st
    /\ StronglySorted str_le names
    /\ NoDup names
    /\ (forall x, x ∈ names <-> x ∈ given_names st \/ x ∈ fallback_candidates st)
    /\ exists all, blind_loop root = Ok all /\ names = py_sorted (elements all).
Proof.
  rewrite parse_japanese_names_unfold.
  destruct (_open_jmnedict_stream fs) as [f|] eqn:Hopen; [|discriminate].
  destruct (iterparse f) as [root|] eqn:Hread; [|discriminate].
  destruct (parse_loop root) as [st|] eqn:Hloop; [|discriminate].
  destruct (decide (given_names st ∪ fallback_candidates st = ∅)) as [|_];
    [discriminate|].
  intros [= <-]. exists f, root, st.
  destruct (py_sorted_elements (given_names st ∪ fallback_candidates st))
    as (Hsorted & Hnodup & Hmem).
  split; [reflexivity|]. split; [exact Hread|]. split; [exact Hloop|].
  split; [exact Hsorted|]. split; [exact Hnodup|]. split.
  - intros x. rewrite Hmem. apply elem_of_union.
  - exists (given_names st ∪ fallback_candidates st).
    split; [apply parse_loop_blind, Hloop | reflexivity].
Qed.

Lemma result_is_sorted_union_witness :
  exists f root st,
    _open_jmnedict_stream demo_files = Ok f
    /\ iterparse f = Ok root
    /\ @parse_loop ascii_case demo_kakasi root = Ok st
    /\ StronglySorted str_le [lit "Aiko"]
    /\ NoDup [lit "Aiko"]
    /\ (forall x, x ∈ [lit "Aiko"] <-> x ∈ given_names st \/ x ∈ fallback_candidates st)
    /\ exists all, @blind_loop ascii_case demo_kakasi root = Ok all
                   /\ [lit "Aiko"] = py_sorted (elements all).
Proof.
  apply (@result_is_sorted_union ascii_case demo_kakasi demo_files [lit "Aiko"]).
  vm_compute. reflexivity.
Defined.

(** C4.  [parse_japanese_names] raises the "no data" error exactly when the
    stream could be opened and read to its end and the loop leaves both sets
    empty; the loop itself never raises, and an entry without readings or
    with a rejected romanization leaves both sets as they were. *)
Theorem no_data_error {UC : UnicodeCase} {KKS : Kakasi} (fs : gmap string file) :
  (parse_japanese_names fs
     = Raise (RuntimeError "No Japanese names found after parsing." None)
   <-> exists f root st,
         _open_jmnedict_stream fs = Ok f
         /\ iterparse f = Ok root
         /\ parse_loop root = Ok st
         /\ given_names st = ∅ /\ fallback_candidates st = ∅)
  /\ (forall root, exists st, parse_loop root = Ok st)
  /\ (forall elem st,
        kana_readings elem = [] -> kanji_readings elem = [] ->
        exists e' st', loop_body elem st = Ok (e', st')
          /\ given_names st' = given_names st
          /\ fallback_candidates st' = fallback_candidates st)
  /\ (forall elem st base,
        choose_base (kana_readings elem) (kanji_readings elem) = Ok base ->
        valid_romaji (to_romaji base) = false ->
        exists e' st', loop_body elem st = Ok (e', st')
          /\ given_names st' = given_names st
          /\ fallback_candidates st' = fallback_candidates st).
Proof.
  split; [|split; [exact parse_loop_ok | split]].
  - rewrite parse_japanese_names_unfold. split.
    + destruct (_open_jmnedict_stream fs) as [f|e] eqn:Hopen.
      2:{ unfold _open_jmnedict_stream in Hopen.
          destruct (fs !! "data/JMnedict.xml"%string); [discriminate|].
          destruct (fs !! "data/JMnedict.xml.gz"%string); [discriminate|].
          injection Hopen as <-. discriminate. }
      destruct (iterparse f) as [root|e] eqn:Hread.
      2:{ intros [= ->]. unfold iterparse in Hread.
          destruct f as [[]|[| |[]| | |]]; discriminate. }
      destruct (parse_loop_ok root) as [st Hloop]. rewrite Hloop.
      destruct (decide (given_names st ∪ fallback_candidates st = ∅)) as [He|_];
        [|discriminate].
      intros _. exists f, root, st.
      apply empty_union_L in He as [Hg Hf].
      split; [reflexivity|]. split; [exact Hread|]. split; [exact Hloop|].
      split; assumption.
    + intros (f & root & st & -> & -> & -> & Hg & Hf).
      rewrite Hg, Hf.
      destruct (decide ((∅ : gset pystr) ∪ ∅ = ∅)) as [_|Hne]; [reflexivity|].
      exfalso. apply Hne. apply (left_id_L ∅ (∪)).
  - intros elem st Hkana Hkanji. unfold loop_body.
    destruct (negb (_ends (tag elem) "entry")); [simpl; eauto|].
    rewrite Hkana, Hkanji. simpl. eauto.
  - intros elem st base Hbase Hv. unfold loop_body.
    destruct (negb (_ends (tag elem) "entry")); [simpl; eauto|].
    destruct (is_nil (kana_readings elem) && is_nil (kanji_readings elem));
      [simpl; eauto|].
    rewrite Hbase. simpl. rewrite Hv. simpl. eauto.
Qed.

Lemma no_data_error_witness :
  @parse_japanese_names ascii_case demo_kakasi empty_dictionary_files
  = Raise (RuntimeError "No Japanese names found after parsing." None).
Proof.
  apply (proj1 (@no_data_error ascii_case demo_kakasi empty_dictionary_files)).
  exists (PlainStream (XmlDoc (mkElement (Some (lit "JMnedict")) None []))),
         (mkElement (Some (lit "JMnedict")) None []),
         (mkState ∅ ∅ 1 0).
  repeat split; vm_compute; reflexivity.
Defined.

(** ** Dictionary acquisition *)

Section Acquisition.
Context {P : Processes}.

(** A source whose [curl] exits with status 0 ends the loop. *)
Lemma try_sources_success s rest last_error w fs :
  run_process (source_args s) (files w) = (Exited 0, fs) ->
  try_sources (s :: rest) last_error w = (Ok tt, after_process (source_args s) fs w).
Proof.
  destruct s as [[url insecure] target]. unfold source_args. simpl.
  intros H. unfold _run_curl, subprocess_run_check. rewrite H. reflexivity.
Qed.

(** A source whose [curl] exits with another status is recorded and the
    loop goes on with the next source. *)
Lemma try_sources_failure s rest last_error w fs code :
  run_process (source_args s) (files w) = (Exited code, fs) -> code <> 0%Z ->
  try_sources (s :: rest) last_error w
  = try_sources rest (Some (CalledProcessError code (source_args s)))
                (after_process (source_args s) fs w).
Proof.
  destruct s as [[url insecure] target]. unfold source_args. simpl.
  intros H Hcode. unfold _run_curl, subprocess_run_check. rewrite H.
  destruct code; [congruence | reflexivity | reflexivity].
Qed.

(** A [curl] that cannot be started ends the loop with its [OSError]:
    the next source is not tried. *)
Lemma try_sources_not_started s rest last_error w fs msg :
  run_process (source_args s) (files w) = (NotStarted msg, fs) ->
  try_sources (s :: rest) last_error w
  = (Raise (OSError msg), after_process (source_args s) fs w).
Proof.
  destruct s as [[url insecure] target]. unfold source_args. simpl.
  intros H. unfold _run_curl, subprocess_run_check. rewrite H. reflexivity.
Qed.

Lemma try_sources_outcome srcs :
  forall last_error w,
    chain_outcome srcs last_error w
      (try_sources srcs last_error w).1 (try_sources srcs last_error w).2.
Proof.
  induction srcs as [|s rest IH]; intros last_error w.
  - simpl. rewrite app_nil_r. auto.
  - destruct (run_process (source_args s) (files w)) as [[code|msg] fs] eqn:Hrun.
    + destruct (decide (code = 0%Z)) as [->|Hcode].
      * rewrite (try_sources_success _ _ _ _ _ Hrun). simpl.
        exists 1%nat. simpl. split; [lia | reflexivity].
      * rewrite (try_sources_failure _ _ _ _ _ _ Hrun Hcode).
        specialize (IH (Some (CalledProcessError code (source_args s)))
                       (after_process (source_args s) fs w)).
        unfold chain_outcome in *.
        destruct (try_sources rest _ _) as [[[]|e] w']; simpl in *.
        -- destruct IH as (n & Hn & Hsp). exists (S n). split; [lia|].
           rewrite Hsp, <- app_assoc. reflexivity.
        -- destruct e; try contradiction.
           ++ destruct IH as (n & Hn & Hsp). exists (S n). split; [lia|].
              rewrite Hsp, <- app_assoc. reflexivity.
           ++ destruct IH as (Hmsg & Hsp & Hcause). split; [exact Hmsg|].
              split; [rewrite Hsp, <- app_assoc; reflexivity|].
              destruct rest as [|s' rest']; simpl in *; [eauto|].
              destruct (last (s' :: rest')) eqn:Hlast; [exact Hcause|].
              apply last_None in Hlast. discriminate Hlast.
    + rewrite (try_sources_not_started _ _ _ _ _ _ Hrun). simpl.
      exists 1%nat. simpl. split; [lia | reflexivity].
Qed.
End Acquisition.

(** C5, as stated, fails: when [curl] cannot be started the fetch of the
    first mirror raises an error ([OSError]), the loop lets it through, and
    the second mirror is never attempted. *)
Lemma mirror_chain_counterexample :
  sources !! 0%nat = Some first_source
  /\ sources !! 1%nat = Some second_source
  /\ (exists e w1,
        @_run_curl (demo_processes true []) first_source.1.1 first_source.2
                   first_source.1.2 empty_world = (Raise e, w1))
  /\ (@try_sources (demo_processes true []) sources None empty_world).1
     = Raise (OSError "No such file or directory: 'curl'")
  /\ source_args second_source
       ∉ spawned (@try_sources (demo_processes true []) sources None empty_world).2.
Proof.
  split; [reflexivity|]. split; [reflexivity|]. split.
  - eexists. eexists. reflexivity.
  - split; [reflexivity|].
    change (spawned (@try_sources (demo_processes true []) sources None empty_world).2)
      with [source_args first_source].
    intros H. apply list_elem_of_singleton in H. discriminate H.
Qed.

(** C5, amended.  When no dictionary file is present the mirrors are tried
    in the order of the list: the commands started are those of an initial
    segment of [sources]; a [curl] that exits with status 0 ends the loop, so
    that later mirrors are not attempted; a [curl] that exits with another
    status ([CalledProcessError]) makes the loop go on with the next mirror;
    when all four exit with a non-zero status one [RuntimeError] is raised
    whose cause is the [CalledProcessError] of the last mirror.  An error of
    starting [curl] is not caught: it ends the loop at once. *)
Theorem mirror_chain {UC : UnicodeCase} {P : Processes} (w : world) :
  chain_outcome sources None w
    (try_sources sources None w).1 (try_sources sources None w).2
  /\ (forall s rest last_error fs,
        run_process (source_args s) (files w) = (Exited 0, fs) ->
        try_sources (s :: rest) last_error w
        = (Ok tt, after_process (source_args s) fs w))
  /\ (forall s rest last_error fs code,
        run_process (source_args s) (files w) = (Exited code, fs) -> code <> 0%Z ->
        try_sources (s :: rest) last_error w
        = try_sources rest (Some (CalledProcessError code (source_args s)))
                      (after_process (source_args s) fs w))
  /\ (forall s rest last_error fs msg,
        run_process (source_args s) (files w) = (NotStarted msg, fs) ->
        try_sources (s :: rest) last_error w
        = (Raise (OSError msg), after_process (source_args s) fs w))
  /\ (forall last_error,
        try_sources [] last_error w
        = (Raise (RuntimeError "All JMnedict sources failed" last_error), w))
  /\ (exists_ (files w) jm_gz || exists_ (files w) jm_xml || exists_ (files w) jm_zip = false ->
      download_if_missing w
      = match try_sources sources None w with
        | (Ok _, w') =>
            (_extract_jmnedict_files jm_xml jm_gz jm_zip;; _extract_census_data) w'
        | (Raise e, w') => (Raise e, w')
        end)
  /\ (exists_ (files w) jm_gz || exists_ (files w) jm_xml || exists_ (files w) jm_zip = true ->
      download_if_missing w
      = (_extract_jmnedict_files jm_xml jm_gz jm_zip;; _extract_census_data) w).
Proof.
  split; [apply try_sources_outcome|].
  split; [intros; apply try_sources_success; assumption|].
  split; [intros; apply try_sources_failure; assumption|].
  split; [intros; apply try_sources_not_started; assumption|].
  split; [reflexivity|].
  split; intros Hex; unfold download_if_missing, mbind, io_bind, get_files;
    rewrite Hex; simpl.
  - destruct (try_sources sources None w) as [[[]|e] w']; reflexivity.
  - reflexivity.
Qed.

Lemma mirror_chain_witness :
  @try_sources (demo_processes false [first_source.1.1]) sources None empty_world
  = @try_sources (demo_processes false [first_source.1.1]) (tail sources)
      (Some (CalledProcessError 22 (source_args first_source)))
      (after_process (source_args first_source) ∅ empty_world)
  /\ @try_sources (demo_processes false [first_source.1.1]) (tail sources)
      (Some (CalledProcessError 22 (source_args first_source)))
      (after_process (source_args first_source) ∅ empty_world)
     = (Ok tt,
        after_process (source_args second_source)
          (<[jm_gz := Gz (XmlDoc (mkElement (Some (lit "JMnedict")) None []))]> ∅)
          (after_process (source_args first_source) ∅ empty_world)).
Proof.
  split.
  - apply (proj1 (proj2 (proj2
             (@mirror_chain ascii_case (demo_processes false [first_source.1.1])
                empty_world)))
             first_source (tail sources) None ∅ 22%Z).
    + reflexivity.
    + discriminate.
  - apply (proj1 (proj2
             (@mirror_chain ascii_case (demo_processes false [first_source.1.1])
                (after_process (source_args first_source) ∅ empty_world)))
             second_source (tail (tail sources))).
    reflexivity.
Defined.

(** ** The cache of names *)

Lemma py_lstrip_app (s t : pystr) :
  py_lstrip (s ++ t) = if is_nil (py_lstrip s) then py_lstrip t else py_lstrip s ++ t.
Proof.
  induction s as [|c s IH]; simpl; [reflexivity|].
  destruct (py_isspace c); [exact IH | reflexivity].
Qed.

Lemma py_rstrip_snoc_space (s : pystr) (c : N) :
  py_isspace c = true -> py_rstrip (s ++ [c]) = py_rstrip s.
Proof.
  intros Hc. unfold py_rstrip. rewrite rev_app_distr. simpl. rewrite Hc. reflexivity.
Qed.

(** A trailing white-space character does not change [strip]. *)
Lemma py_strip_snoc_space (s : pystr) (c : N) :
  py_isspace c = true -> py_strip (s ++ [c]) = py_strip s.
Proof.
  intros Hc. unfold py_strip. rewrite py_lstrip_app.
  destruct (py_lstrip s) as [|a m] eqn:Hs; simpl.
  - rewrite Hc. reflexivity.
  - change (a :: m ++ [c]) with ((a :: m) ++ [c]).
    apply py_rstrip_snoc_space, Hc.
Qed.

Lemma trimmed_strip (s : pystr) : trimmed s -> py_strip s = s.
Proof.
  intros [Hh Hl]. unfold py_strip.
  assert (H1 : py_lstrip s = s).
  { destruct s as [|c s]; [reflexivity|]. simpl. rewrite (Hh c eq_refl). reflexivity. }
  rewrite H1. unfold py_rstrip.
  assert (H2 : py_lstrip (rev s) = rev s).
  { destruct (rev s) as [|c r] eqn:Hr; [reflexivity|]. simpl.
    rewrite (Hl c); [reflexivity|]. rewrite <- (rev_involutive s), Hr.
    rewrite last_rev_head. reflexivity. }
  rewrite H2. apply rev_involutive.
Qed.

(** A line without line break, followed by [\n], is read back as one line. *)
Lemma readlines_line (name rest : pystr) :
  forallb line_char name = true ->
  readlines (name ++ 10 :: rest) = (name ++ [10]) :: readlines rest.
Proof.
  induction name as [|c name IH]; intros Hname; [reflexivity|].
  simpl in Hname. apply andb_true_iff in Hname as [Hc Hname].
  unfold line_char, is_newline in Hc.
  apply andb_true_iff in Hc as [Hc _]. apply negb_true_iff, orb_false_iff in Hc as [H10 H13].
  simpl. rewrite H10, H13, (IH Hname). reflexivity.
Qed.

Lemma names_of_text_lines (names : list pystr) :
  Forall (fun n => py_strip n <> [] /\ forallb line_char n = true) names ->
  names_of_text (List.concat (List.map (fun n => n ++ [10]) names))
  = List.map py_strip names.
Proof.
  unfold names_of_text. induction 1 as [|n names [Hn Hline] _ IH]; [reflexivity|].
  simpl. rewrite <- app_assoc. simpl. rewrite (readlines_line _ _ Hline).
  simpl. rewrite (py_strip_snoc_space n 10 eq_refl).
  destruct (py_strip n) eqn:Hs; [congruence|]. simpl.
  rewrite (py_strip_snoc_space n 10 eq_refl), Hs, IH. reflexivity.
Qed.

Lemma load_from_text (w : world) (content : pystr) :
  cache_text (files w) = Some content ->
  load_from_jp_names_file w = (Ok (names_of_text content), w).
Proof.
  unfold cache_text, load_from_jp_names_file, mbind, io_bind, get_files.
  destruct (files w !! jp_names_path) as [[]|]; intros [= <-]; reflexivity.
Qed.

Lemma save_to_text (name : pystr) (w : world) (content : pystr) :
  cache_text (files w) = Some content ->
  forallb line_char name = true ->
  exists w', save_to_jp_names_file name w = (Ok tt, w')
    /\ cache_text (files w') = Some (content ++ name ++ [10]).
Proof.
  intros Hc Hname.
  assert (Hs : existsb is_surrogate name = false).
  { apply not_true_iff_false. intros He. apply existsb_exists in He as (c & Hin & Hc').
    rewrite forallb_forall in Hname. specialize (Hname c Hin).
    unfold line_char in Hname. apply andb_true_iff in Hname as [_ Hname].
    rewrite Hc' in Hname. discriminate Hname. }
  unfold cache_text in Hc.
  unfold save_to_jp_names_file, mbind, io_bind, get_files.
  destruct (files w !! jp_names_path) as [[]|] eqn:Hf; try discriminate;
    injection Hc as <-; simpl; rewrite Hs; simpl;
    (eexists; split; [reflexivity|]);
    unfold cache_text; simpl; rewrite lookup_insert_eq; reflexivity.
Qed.

Lemma save_each_text (names : list pystr) :
  forall w content,
    cache_text (files w) = Some content ->
    Forall (fun n => forallb line_char n = true) names ->
    exists w', save_each names w = (Ok tt, w')
      /\ cache_text (files w')
         = Some (content ++ List.concat (List.map (fun n => n ++ [10]) names)).
Proof.
  induction names as [|n names IH]; intros w content Hc Hall.
  - exists w. simpl. rewrite app_nil_r. auto.
  - inversion Hall as [|? ? Hn Hall']; subst.
    destruct (save_to_text n w content Hc Hn) as (w1 & Hsave & Hc1).
    destruct (IH w1 _ Hc1 Hall') as (w2 & Hrest & Hc2).
    exists w2. split.
    + simpl. unfold mbind, io_bind. rewrite Hsave. exact Hrest.
    + rewrite Hc2. simpl. rewrite <- !app_assoc. reflexivity.
Qed.

(** C6, as stated, fails: a name is any string, and a non-blank name that
    contains a line break comes back as two names. *)
Lemma cache_round_trip_counterexample :
  let names := [lit "A" ++ [10] ++ lit "B"] in
  NoDup names
  /\ Forall (fun n => py_strip n <> []) names
  /\ exists w1 w2,
       save_each names empty_world = (Ok tt, w1)
       /\ load_from_jp_names_file w1 = (Ok [lit "A"; lit "B"], w2)
       /\ [lit "A"; lit "B"] <> names.
Proof.
  split; [apply NoDup_singleton|].
  split; [constructor; [discriminate | constructor]|].
  eexists. eexists.
  split; [vm_compute; reflexivity|].
  split; [vm_compute; reflexivity | discriminate].
Qed.

(** C6, amended.  Starting from an absent or empty cache file, for every
    sequence of non-blank names that contain neither a line break nor a lone
    surrogate, saving each name and then loading returns the names in order,
    each trimmed, hence exactly the names when none has white space at its
    ends; and loading when the file is absent returns the empty list. *)
Theorem cache_round_trip (names : list pystr) (w : world) :
  (files w !! jp_names_path = None \/ files w !! jp_names_path = Some (Text [])) ->
  Forall (fun n => py_strip n <> [] /\ forallb line_char n = true) names ->
  (exists w1,
     save_each names w = (Ok tt, w1)
     /\ load_from_jp_names_file w1 = (Ok (List.map py_strip names), w1)
     /\ (Forall trimmed names ->
         load_from_jp_names_file w1 = (Ok names, w1)))
  /\ (files w !! jp_names_path = None -> load_from_jp_names_file w = (Ok [], w)).
Proof.
  intros Hstart Hnames. split.
  - assert (Hc : cache_text (files w) = Some []).
    { unfold cache_text. destruct Hstart as [-> | ->]; reflexivity. }
    destruct (save_each_text names w [] Hc) as (w1 & Hsave & Hc1).
    { eapply Forall_impl; [exact Hnames|]. intros n [_ Hn]. exact Hn. }
    exists w1. split; [exact Hsave|].
    assert (Hload : load_from_jp_names_file w1 = (Ok (List.map py_strip names), w1)).
    { rewrite (load_from_text _ _ Hc1). simpl.
      rewrite (names_of_text_lines _ Hnames). reflexivity. }
    split; [exact Hload|].
    intros Htrim. rewrite Hload. do 2 f_equal.
    clear -Htrim. induction Htrim as [|n names Hn _ IH]; [reflexivity|].
    simpl. rewrite (trimmed_strip _ Hn), IH. reflexivity.
  - intros Habsent. unfold load_from_jp_names_file, mbind, io_bind, get_files.
    rewrite Habsent. reflexivity.
Qed.

Lemma cache_round_trip_witness :
  exists w1,
    save_each [lit "Aiko"; lit "Mary Ann"] empty_world = (Ok tt, w1)
    /\ load_from_jp_names_file w1 = (Ok [lit "Aiko"; lit "Mary Ann"], w1).
Proof.
  destruct (proj1 (cache_round_trip [lit "Aiko"; lit "Mary Ann"] empty_world
                     (or_introl eq_refl)
                     ltac:(repeat constructor; discriminate)))
    as (w1 & Hsave & _ & Hload).
  exists w1. split; [exact Hsave|]. apply Hload.
  repeat constructor; simpl; intros c [= <-]; reflexivity.
Defined.

(** ** The generator *)

Section Generator.
Context {R : Random}.

(** The generator draws below its bound. *)
Hypothesis randbelow_lt :
forall g n, (0 < n)%nat -> ((randbelow g n).1 < n)%nat.

Lemma random_choice_member (seq : list pystr) (w : world) :
seq <> [] -> exists x w', random_choice seq w = (Ok x, w') /\ x ∈ seq.
Proof.
intros Hne. unfold random_choice.
apply is_nil_false in Hne as Hnil. rewrite Hnil.
assert (Hlen : (0 < length seq)%nat) by (destruct seq; simpl; [congruence | lia]).
specialize (randbelow_lt (rng w) (length seq) Hlen).
destruct (randbelow (rng w) (length seq)) as [i g]. simpl in randbelow_lt.
destruct (lookup_lt_is_Some_2 seq i randbelow_lt) as [x Hx].
rewrite Hx. eexists. eexists. split; [reflexivity|].
eapply list_elem_of_lookup_2, Hx.
Qed.

(** C8.  From two non-empty lists [generate_name] returns a member of the
  first, one space, and a member of the second; from [["Aiko"]] and
  [["Smith"]] it returns ["Aiko Smith"]. *)
Theorem generate_name_shape (jp_names west_surnames : list pystr) (w : world) :
jp_names <> [] -> west_surnames <> [] ->
(exists given surname w',
   generate_name jp_names west_surnames w = (Ok (given ++ lit " " ++ surname), w')
   /\ given ∈ jp_names /\ surname ∈ west_surnames)
/\ (exists w', generate_name [lit "Aiko"] [lit "Smith"] w
               = (Ok (lit "Aiko Smith"), w')).
Proof.
assert (Hshape : forall jp west, jp <> [] -> west <> [] ->
          exists given surname w',
            generate_name jp west w = (Ok (given ++ lit " " ++ surname), w')
            /\ given ∈ jp /\ surname ∈ west).
{ intros jp west Hjp Hwest. unfold generate_name, mbind, io_bind.
  destruct (random_choice_member jp w Hjp) as (a & w1 & -> & Ha).
  destruct (random_choice_member west w1 Hwest) as (b & w2 & -> & Hb).
  exists a, b, w2. auto. }
intros Hjp Hwest. split; [apply Hshape; assumption|].
destruct (Hshape [lit "Aiko"] [lit "Smith"]) as (a & b & w' & Heq & Ha & Hb);
  [discriminate | discriminate |].
apply list_elem_of_singleton in Ha, Hb. subst a b. exists w'. exact Heq.
Qed.
End Generator.

Lemma demo_random_lt (g : N) (n : nat) :
  (0 < n)%nat -> ((@randbelow demo_random g n).1 < n)%nat.
Proof. intros H. exact H. Qed.

Lemma generate_name_shape_witness :
  exists w', @generate_name demo_random [lit "Aiko"] [lit "Smith"] empty_world
             = (Ok (lit "Aiko Smith"), w').
Proof.
  apply (proj2 (@generate_name_shape demo_random demo_random_lt
                  [lit "Aiko"] [lit "Smith"] empty_world
                  ltac:(discriminate) ltac:(discriminate))).
Defined.

(** ** The script *)

(** C7, on the code.  With a cache file that holds only an empty line no
    name is loaded: [main] prints its message and returns 1, but the script
    calls [main()] and drops the value, and the interpreter exits with
    status 0.  With a name in the cache [main] prints the generated name and
    its slug and returns 0. *)
Theorem script_exit_status :
  (@main ascii_case demo_kakasi (demo_processes false []) demo_random blank_cache_world).1
  = Ok 1%Z
  /\ stdout (@main ascii_case demo_kakasi (demo_processes false []) demo_random
               blank_cache_world).2
     = [lit "No Japanese names available. Please check data files."]
  /\ (@run_script ascii_case demo_kakasi (demo_processes false []) demo_random
        blank_cache_world).1 = 0%Z
  /\ (@main ascii_case demo_kakasi (demo_processes false []) demo_random ready_world).1
     = Ok 0%Z
  /\ stdout (@main ascii_case demo_kakasi (demo_processes false []) demo_random
               ready_world).2
     = [lit "Aiko Smith"; lit "aiko-smith"].
Proof. repeat split; vm_compute; reflexivity. Qed.


(** * Further properties of the program *)

(** ** The walk over the document *)

(** The loop with a body that may look at the children as the loop left
    them: what holds of every element, given that it holds of an element
    whenever it holds along its children. *)
Lemma iterparse_for_chain {S} (body : Element -> S -> result (Element * S))
      (R : Element -> S -> Element -> S -> Prop) :
  (forall t x cs cs' s s1 e' s',
      chain R cs s cs' s1 ->
      body (mkElement t x cs') s1 = Ok (e', s') ->
      R (mkElement t x cs) s e' s') ->
  forall e s e' s', iterparse_for body e s = Ok (e', s') -> R e s e' s'.
Proof.
  intros Hbody. induction e as [t x cs IHcs] using Element_forall_ind.
  intros s e' s'. rewrite iterparse_for_unfold.
  destruct (visit_children body cs s) as [[cs' s1]|] eqn:Hcs; [|discriminate].
  simpl. apply Hbody.
  clear t x e' s'. revert s cs' s1 Hcs.
  induction IHcs as [|c cs Hc _ IH]; intros s cs' s1 Hcs; simpl in Hcs.
  - injection Hcs as <- <-. reflexivity.
  - destruct (iterparse_for body c s) as [[c' s2]|] eqn:Hc'; [|discriminate].
    simpl in Hcs.
    destruct (visit_children body cs s2) as [[l' s3]|] eqn:Hl; [|discriminate].
    simpl in Hcs. injection Hcs as <- <-.
    simpl. exists s2. split; [apply Hc, Hc' | apply IH, Hl].
Qed.

Section WalkFacts.
Context {UC : UnicodeCase} {KKS : Kakasi}.

(** The element an iteration leaves: the element itself when its tag does
    not end with ["entry"], the cleared element otherwise. *)
Lemma loop_body_element (elem : Element) (st : parse_state) e' st' :
  loop_body elem st = Ok (e', st') ->
  (if _ends (tag elem) "entry" then e' = clear elem else e' = elem)
  /\ total_entries st' = (total_entries st + 1)%nat
  /\ processed_entries st'
     = (processed_entries st + if _ends (tag elem) "entry" then 1 else 0)%nat.
Proof.
  unfold loop_body. destruct (_ends (tag elem) "entry"); simpl.
  - destruct (is_nil (kana_readings elem) && is_nil (kanji_readings elem)).
    { intros [= <- <-]. simpl. auto. }
    destruct (choose_base (kana_readings elem) (kanji_readings elem)) as [b|];
      [|discriminate]. simpl.
    destruct (negb (valid_romaji (to_romaji b))).
    { intros [= <- <-]. simpl. auto. }
    destruct (has_name_type elem); intros [= <- <-]; simpl; auto.
  - intros [= <- <-]. simpl. split; [reflexivity|]. split; [reflexivity | lia].
Qed.

Lemma chain_walked (cs : list Element) :
  forall st cs' st1,
    chain walked cs st cs' st1 ->
    List.map tag cs' = List.map tag cs
    /\ Forall released cs'
    /\ total_entries st1
       = (total_entries st + length (List.flat_map iter cs))%nat
    /\ processed_entries st1
       = (processed_entries st
          + length (List.filter (fun d => _ends (tag d) "entry")
                                (List.flat_map iter cs)))%nat.
Proof.
  induction cs as [|c cs IH]; intros st [|c' cs'] st1 Hch; simpl in Hch;
    try contradiction.
  - subst st1. simpl. repeat split; [constructor | lia | lia].
  - destruct Hch as (s1 & (Htag & Hrel & Htot & Hproc) & Hrest).
    destruct (IH _ _ _ Hrest) as (Htags & Hrels & Htot' & Hproc').
    simpl. split; [rewrite Htag, Htags; reflexivity|].
    split; [constructor; assumption|].
    rewrite List.filter_app, !length_app.
    unfold count_entries in Hproc. split; lia.
Qed.

Lemma released_children (t x : option pystr) (cs : list Element) :
  _ends t "entry" = false -> Forall released cs -> released (mkElement t x cs).
Proof.
  intros Ht Hcs. unfold released. simpl. constructor.
  - simpl. rewrite Ht. discriminate.
  - apply Forall_forall. intros d Hd.
    apply list_elem_of_In, in_flat_map in Hd as (c & Hc & Hd).
    apply list_elem_of_In in Hc.
    rewrite Forall_forall in Hcs. specialize (Hcs c Hc).
    unfold released in Hcs. rewrite Forall_forall in Hcs.
    apply Hcs, list_elem_of_In, Hd.
Qed.

Lemma loop_walked (e : Element) (st : parse_state) e' st' :
  iterparse_for loop_body e st = Ok (e', st') -> walked e st e' st'.
Proof.
  apply (iterparse_for_chain loop_body walked). clear.
  intros t x cs cs' s s1 e' s' Hch Hbody.
  destruct (chain_walked _ _ _ _ Hch) as (Htags & Hrels & Htot & Hproc).
  destruct (loop_body_element _ _ _ _ Hbody) as (He & Htot' & Hproc').
  simpl in He, Hproc'. unfold walked, count_entries. simpl.
  destruct (_ends t "entry") eqn:Ht.
  - subst e'. simpl. split; [reflexivity|]. split.
    + unfold released. simpl. constructor; [auto | constructor].
    + simpl. split; lia.
  - subst e'. simpl. split; [reflexivity|].
    split; [apply released_children; assumption|]. split.
    + lia.
    + lia.
Qed.
End WalkFacts.

(** X1.  Entries are released as soon as they are classified: in the tree
    the loop leaves behind no tag has changed and every element whose tag
    ends with ["entry"] has neither text nor children, whatever the
    validation said about it.  An enclosing element examined later therefore
    no longer sees the readings of an entry nested in it. *)
Theorem entries_released {UC : UnicodeCase} {KKS : Kakasi}
        (e : Element) (st : parse_state) (e' : Element) (st' : parse_state) :
  iterparse_for loop_body e st = Ok (e', st') ->
  tag e' = tag e
  /\ released e'
  /\ (forall d name, d ∈ iter e' -> _ends (tag d) "entry" = true ->
                     readings name d = []).
Proof.
  intros H. destruct (loop_walked _ _ _ _ H) as (Htag & Hrel & _).
  split; [exact Htag|]. split; [exact Hrel|].
  intros d name Hd Hentry. unfold released in Hrel.
  rewrite Forall_forall in Hrel. destruct (Hrel d Hd Hentry) as [Htext Hch].
  destruct d as [t x cs]. simpl in Htext, Hch. subst x cs.
  unfold readings. simpl. rewrite andb_false_r. reflexivity.
Qed.

Lemma entries_released_witness :
  @iterparse_for parse_state (@loop_body ascii_case demo_kakasi) nested_entry init_state
  = Ok (clear nested_entry,
        mkState ∅ ({[lit "Aiko"]} ∪ {[lit "Aikotarou"]}) 7 2)
  /\ @released ascii_case (clear nested_entry).
Proof.
  assert (H : @iterparse_for parse_state (@loop_body ascii_case demo_kakasi)
                nested_entry init_state
              = Ok (clear nested_entry,
                    mkState ∅ ({[lit "Aiko"]} ∪ {[lit "Aikotarou"]}) 7 2))
    by (vm_compute; reflexivity).
  split; [exact H|].
  exact (proj1 (proj2 (@entries_released ascii_case demo_kakasi _ _ _ _ H))).
Defined.

(** X2.  The two counters of the loop: [total_entries] ends as the number
    of all elements of the document (every end event is counted, entry or
    not) and [processed_entries] as the number of elements whose tag ends
    with ["entry"], skipped and rejected entries included. *)
Theorem counters_count {UC : UnicodeCase} {KKS : Kakasi}
        (root : Element) (st : parse_state) :
  parse_loop root = Ok st ->
  total_entries st = length (iter root)
  /\ processed_entries st = count_entries root
  /\ (processed_entries st <= total_entries st)%nat.
Proof.
  unfold parse_loop. intros H.
  destruct (iterparse_for loop_body root init_state) as [[e' st']|] eqn:Hloop;
    [|discriminate].
  simpl in H. injection H as <-.
  destruct (loop_walked _ _ _ _ Hloop) as (_ & _ & Htot & Hproc).
  simpl in Htot, Hproc. split; [exact Htot|]. split; [exact Hproc|].
  rewrite Htot, Hproc. unfold count_entries. apply List.filter_length_le.
Qed.

Lemma counters_count_witness :
  exists st, @parse_loop ascii_case demo_kakasi nested_entry = Ok st
    /\ total_entries st = 7%nat /\ processed_entries st = 2%nat.
Proof.
  assert (H : @parse_loop ascii_case demo_kakasi nested_entry
              = Ok (mkState ∅ ({[lit "Aiko"]} ∪ {[lit "Aikotarou"]}) 7 2))
    by (vm_compute; reflexivity).
  eexists. split; [exact H|].
  destruct (@counters_count ascii_case demo_kakasi _ _ H) as (Htot & Hproc & _).
  split; [exact Htot | exact Hproc].
Defined.

(** X3.  An entry counts as explicitly typed exactly when one of its
    elements has a tag ending with ["name_type"] and a non-empty text; what
    the text says, even white space only, plays no part. *)
Theorem has_name_type_iff {UC : UnicodeCase} (elem : Element) :
  has_name_type elem = true
  <-> exists nt, nt ∈ iter elem
        /\ _ends (tag nt) "name_type" = true /\ truthy (text nt) = true.
Proof.
  unfold has_name_type, name_types. rewrite bool_decide_eq_true.
  set (l := List.filter _ (iter elem)).
  assert (Hl : forall nt, nt ∈ l <-> nt ∈ iter elem
                 /\ _ends (tag nt) "name_type" = true /\ truthy (text nt) = true).
  { intros nt. unfold l. rewrite !list_elem_of_In, List.filter_In, andb_true_iff.
    reflexivity. }
  split.
  - intros Hne. destruct l as [|nt l'] eqn:El.
    + exfalso. apply Hne. reflexivity.
    + exists nt. apply Hl. left.
  - intros (nt & Hnt). apply Hl in Hnt. intros Hempty.
    assert (Hin : _text_lower nt ∈ (list_to_set (List.map _text_lower l) : gset pystr)).
    { apply elem_of_list_to_set, list_elem_of_In, in_map, list_elem_of_In, Hnt. }
    rewrite Hempty in Hin. apply elem_of_empty in Hin. exact Hin.
Qed.

(** ** What the extraction returns *)

Section ParseInvariant.
Context {UC : UnicodeCase} {KKS : Kakasi}.
Variable Inv : pystr -> Prop.
Hypothesis Inv_romaji :
  forall base, valid_romaji (to_romaji base) = true -> Inv (to_romaji base).

(** A property of every accepted romanization holds of every name in both
    sets, all along the loop. *)
Lemma loop_body_inv (elem : Element) (st : parse_state) :
  (forall n, n ∈ given_names st ∪ fallback_candidates st -> Inv n) ->
  exists e' st', loop_body elem st = Ok (e', st')
    /\ forall n, n ∈ given_names st' ∪ fallback_candidates st' -> Inv n.
Proof.
  intros Hinv.
  destruct (loop_body_cases elem st) as (e' & st' & Heq & Hcases).
  exists e', st'. split; [exact Heq|].
  destruct Hcases as [[Hg Hf] | (base & _ & Hv & Hsets)].
  - rewrite Hg, Hf. exact Hinv.
  - intros n Hn.
    assert (Hn' : n = to_romaji base
                  \/ n ∈ given_names st ∪ fallback_candidates st).
    { destruct (has_name_type elem); destruct Hsets as [Hg Hf];
        rewrite Hg, Hf in Hn;
        rewrite !elem_of_union, elem_of_singleton in Hn;
        rewrite elem_of_union; tauto. }
    destruct Hn' as [-> | Hn']; auto.
Qed.

Lemma parse_names_inv (fs : gmap string file) (names : list pystr) :
  parse_japanese_names fs = Ok names -> names <> [] /\ Forall Inv names.
Proof.
  rewrite parse_japanese_names_unfold.
  destruct (_open_jmnedict_stream fs) as [f|]; [|discriminate].
  destruct (iterparse f) as [root|]; [|discriminate].
  unfold parse_loop.
  destruct (iterparse_for_total loop_body
              (fun st => forall n, n ∈ given_names st ∪ fallback_candidates st -> Inv n)
              loop_body_inv root init_state) as (e' & st & Hloop & Hinv).
  { simpl. intros n Hn.
    apply elem_of_union in Hn as [Hn | Hn]; apply elem_of_empty in Hn;
      contradiction. }
  rewrite Hloop. simpl.
  destruct (decide (given_names st ∪ fallback_candidates st = ∅)) as [|Hne];
    [discriminate|].
  intros [= <-].
  destruct (py_sorted_elements (given_names st ∪ fallback_candidates st))
    as (_ & _ & Hmem).
  split.
  - intros Hnil. apply Hne. apply set_eq. intros x.
    rewrite <- Hmem, Hnil. split; intros Hx.
    + apply elem_of_nil in Hx. contradiction.
    + apply elem_of_empty in Hx. contradiction.
  - apply Forall_forall. intros n Hn. apply Hinv, Hmem, Hn.
Qed.
End ParseInvariant.

(** X4.  What [parse_japanese_names] returns on success is never empty, and
    every name in it keeps the invariants of a candidate: between 2 and 14
    characters, one Latin letter first, then only letters, apostrophes,
    hyphens and spaces. *)
Theorem parsed_names_are_candidates {UC : UnicodeCase} {KKS : Kakasi}
        (fs : gmap string file) (names : list pystr) :
  parse_japanese_names fs = Ok names ->
  names <> []
  /\ Forall (fun n => (2 <= length n <= 14)%nat /\ name_shaped n
                      /\ Forall (fun c => is_name_char c = true) n) names.
Proof.
  apply parse_names_inv. intros base Hv.
  apply valid_romaji_spec in Hv as [Hlen Hshape].
  split; [exact Hlen|]. split; [exact Hshape|].
  destruct Hshape as (c & rest & -> & Hc & Hrest).
  constructor; [|exact Hrest].
  unfold is_name_char. rewrite Hc. reflexivity.
Qed.

Lemma parsed_names_are_candidates_witness :
  [lit "Aiko"] <> []
  /\ Forall (fun n => (2 <= length n <= 14)%nat /\ name_shaped n
                      /\ Forall (fun c => is_name_char c = true) n) [lit "Aiko"].
Proof.
  apply (@parsed_names_are_candidates ascii_case demo_kakasi demo_files).
  vm_compute. reflexivity.
Defined.

(** X5.  Which dictionary file is read and how the extraction can fail.
    [FileNotFoundError] is raised exactly when neither [JMnedict.xml] nor
    [JMnedict.xml.gz] is present (a zip archive alone does not help); when
    [JMnedict.xml] is present nothing else in the directory matters; and the
    only other exceptions are those of reading the stream and the "no data"
    error. *)
Theorem dictionary_lookup {UC : UnicodeCase} {KKS : Kakasi} (fs : gmap string file) :
  (fs !! jm_xml = None /\ fs !! jm_gz = None
   <-> parse_japanese_names fs
       = Raise (FileNotFoundError "JMnedict not found (xml or xml.gz)"))
  /\ (forall fs' f, fs !! jm_xml = Some f -> fs' !! jm_xml = Some f ->
        parse_japanese_names fs' = parse_japanese_names fs)
  /\ (forall e, parse_japanese_names fs = Raise e ->
        e = FileNotFoundError "JMnedict not found (xml or xml.gz)"
        \/ e = ParseError "not well-formed"
        \/ e = OSError "Not a gzipped file"
        \/ e = RuntimeError "No Japanese names found after parsing." None).
Proof.
  assert (Hread : forall f e, iterparse f = Raise e ->
            e = ParseError "not well-formed" \/ e = OSError "Not a gzipped file").
  { intros f e. unfold iterparse.
    destruct f as [[]|[| |[]| | |]]; intros [= <-]; auto. }
  split; [|split].
  - rewrite parse_japanese_names_unfold. unfold _open_jmnedict_stream, jm_xml, jm_gz.
    destruct (fs !! "data/JMnedict.xml"%string) as [f|] eqn:Hxml.
    + split; [intros [H _]; discriminate H|].
      destruct (iterparse (PlainStream f)) as [root|e] eqn:Hr.
      * destruct (parse_loop_ok root) as [st ->].
        destruct (decide _); discriminate.
      * intros [= ->]. apply Hread in Hr as [Hr | Hr]; discriminate Hr.
    + destruct (fs !! "data/JMnedict.xml.gz"%string) as [f|] eqn:Hgz.
      * split; [intros [_ H]; discriminate H|].
        destruct (iterparse (GzipStream f)) as [root|e] eqn:Hr.
        -- destruct (parse_loop_ok root) as [st ->].
           destruct (decide _); discriminate.
        -- intros [= ->]. apply Hread in Hr as [Hr | Hr]; discriminate Hr.
      * split; auto.
  - intros fs' f H H'. rewrite !parse_japanese_names_unfold.
    unfold _open_jmnedict_stream. unfold jm_xml in H, H'. rewrite H, H'. reflexivity.
  - intros e. rewrite parse_japanese_names_unfold. unfold _open_jmnedict_stream.
    destruct (fs !! "data/JMnedict.xml"%string) as [f|].
    + destruct (iterparse (PlainStream f)) as [root|e'] eqn:Hr.
      * destruct (parse_loop_ok root) as [st ->].
        destruct (decide _); intros [= <-]; auto.
      * intros [= <-]. apply Hread in Hr. tauto.
    + destruct (fs !! "data/JMnedict.xml.gz"%string) as [f|].
      * destruct (iterparse (GzipStream f)) as [root|e'] eqn:Hr.
        -- destruct (parse_loop_ok root) as [st ->].
           destruct (decide _); intros [= <-]; auto.
        -- intros [= <-]. apply Hread in Hr. tauto.
      * intros [= <-]. auto.
Qed.

Lemma dictionary_lookup_witness :
  @parse_japanese_names ascii_case demo_kakasi
     {[ jm_zip := ZipArchive [(lit "JMnedict.xml", XmlDoc demo_dictionary)] ]}
  = Raise (FileNotFoundError "JMnedict not found (xml or xml.gz)")
  /\ @parse_japanese_names ascii_case demo_kakasi
       (<[jm_gz := Blob]> demo_files)
     = @parse_japanese_names ascii_case demo_kakasi demo_files.
Proof.
  split.
  - apply (proj1 (@dictionary_lookup ascii_case demo_kakasi _)).
    split; reflexivity.
  - apply (proj1 (proj2 (@dictionary_lookup ascii_case demo_kakasi demo_files))
             _ (XmlDoc demo_dictionary)); reflexivity.
Defined.

(** X6.  The filter of line 185 keeps, in their order, exactly the kana
    readings that are not empty and whose code points all lie between
    U+3040 and U+30FF; a reading with one character outside that range, a
    kanji or a Latin letter, is dropped. *)
Theorem only_kana_keeps (kana : list pystr) :
  (forall r, r ∈ only_kana kana
             <-> r ∈ kana /\ r <> []
                 /\ Forall (fun c => 0x3040 <= c <= 0x30FF) r)
  /\ sublist (only_kana kana) kana.
Proof.
  split.
  - intros r. unfold only_kana.
    rewrite !list_elem_of_In, List.filter_In, kana_re_spec, forallb_forall,
      Forall_forall.
    assert (Hc : forall c, is_kana_char c = true <-> 0x3040 <= c <= 0x30FF).
    { intros c. unfold is_kana_char, in_range.
      rewrite andb_true_iff, !N.leb_le. reflexivity. }
    split; intros (Hin & Hne & Hall); (split; [exact Hin|]); (split; [exact Hne|]).
    + intros c Hcin. apply Hc, Hall, list_elem_of_In, Hcin.
    + intros c Hcin. apply Hc, Hall, list_elem_of_In, Hcin.
  - unfold only_kana. induction kana as [|r kana IH]; simpl; [constructor|].
    destruct (re_fullmatch kana_re r); constructor; exact IH.
Qed.

(** ** Archive extraction *)

Lemma exists_lookup (fs : gmap string file) (p : string) :
  exists_ fs p = match fs !! p with Some _ => true | None => false end.
Proof. unfold exists_. destruct (fs !! p); reflexivity. Qed.

Ltac io_unfold :=
  unfold mbind, io_bind, mret, io_ret, get_files, set_files, print, io_raise in *;
  cbn [files stdout spawned rng fst snd] in *.

Section ExtractionOfArchives.
Context {UC : UnicodeCase}.

(** The member the zip branch extracts always opens. *)
Lemma zip_open_found (members : list (pystr * file)) (f : pystr * file -> bool) m :
  List.find f members = Some m -> is_Some (zip_open members m.1).
Proof.
  intros Hfind. apply List.find_some in Hfind as [Hin _].
  unfold zip_open.
  destruct (List.find (fun m0 => bool_decide (m0.1 = m.1)) (rev members)) as [x|] eqn:Hx.
  - simpl. eauto.
  - exfalso.
    assert (Hm : In m (rev members)) by (apply in_rev; rewrite rev_involutive; exact Hin).
    pose proof (List.find_none _ _ Hx m Hm) as Hfalse. simpl in Hfalse.
    rewrite bool_decide_eq_false in Hfalse. apply Hfalse. reflexivity.
Qed.

(** X7.  Archive extraction changes no file but [JMnedict.xml] and its
    temporary file and starts no process; it leaves everything alone when
    [JMnedict.xml] is already there; and when it returns normally with a zip
    or gzip file present, [JMnedict.xml] is present afterwards. *)
Theorem extraction_outcome (w : world) :
  (forall p, p <> jm_xml -> p <> jm_tmp ->
     files (_extract_jmnedict_files jm_xml jm_gz jm_zip w).2 !! p = files w !! p)
  /\ spawned (_extract_jmnedict_files jm_xml jm_gz jm_zip w).2 = spawned w
  /\ (is_Some (files w !! jm_xml) ->
      _extract_jmnedict_files jm_xml jm_gz jm_zip w = (Ok tt, w))
  /\ ((_extract_jmnedict_files jm_xml jm_gz jm_zip w).1 = Ok tt ->
      is_Some (files w !! jm_zip) \/ is_Some (files w !! jm_gz) ->
      is_Some (files (_extract_jmnedict_files jm_xml jm_gz jm_zip w).2 !! jm_xml)).
Proof.
  destruct w as [fs out sp g].
  unfold _extract_jmnedict_files. io_unfold. rewrite !exists_lookup.
  destruct (fs !! jm_xml) as [x|] eqn:Hxml.
  { (* the dictionary is there *)
    rewrite andb_false_r. cbn [files]. rewrite !exists_lookup, Hxml, andb_false_r.
    simpl. repeat split; eauto. }
  destruct (fs !! jm_zip) as [z|] eqn:Hzip; cbn [andb negb].
  - (* a zip file *)
    destruct z as [| | |members| |];
      try (simpl; repeat split; try reflexivity;
           [intros [? H]; discriminate H | intros H; discriminate H]).
    destruct (List.find _ members) as [[member content0]|] eqn:Hfind.
    2:{ simpl. repeat split; try reflexivity;
          [intros [? H]; discriminate H | intros H; discriminate H]. }
    destruct (zip_open_found _ _ _ Hfind) as [content Hopen].
    simpl in Hopen. rewrite Hopen. cbn [files].
    rewrite !exists_lookup, lookup_insert_eq, andb_false_r. cbn [files snd fst].
    split; [|split; [reflexivity|split]].
    + intros p Hp Htmp.
      rewrite lookup_insert_ne by (intros E; apply Hp; symmetry; exact E).
      apply lookup_delete_ne. intros E. apply Htmp. symmetry. exact E.
    + intros [? H]. discriminate H.
    + intros _ _. rewrite lookup_insert_eq. eauto.
  - (* no zip file *)
    cbn [files]. rewrite !exists_lookup, Hxml.
    destruct (fs !! jm_gz) as [z|] eqn:Hgz; cbn [andb negb].
    + destruct z as [| |inner| | |]; cbn [files snd fst];
        (split; [intros p Hp _; apply lookup_insert_ne;
                 intros E; apply Hp; symmetry; exact E|]);
        (split; [reflexivity|]);
        (split; [intros [? H]; discriminate H|]);
        try (intros H; discriminate H).
      intros _ _. rewrite lookup_insert_eq. eauto.
    + simpl. split; [reflexivity|]. split; [reflexivity|]. split.
      * intros [? H]. discriminate H.
      * intros _ [[? H] | [? H]]; discriminate H.
Qed.
End ExtractionOfArchives.

Lemma extraction_outcome_witness :
  is_Some (files (@_extract_jmnedict_files ascii_case jm_xml jm_gz jm_zip zip_world).2
           !! jm_xml).
Proof.
  apply (proj2 (proj2 (proj2 (@extraction_outcome ascii_case zip_world)))).
  - vm_compute. reflexivity.
  - left. eexists. reflexivity.
Defined.



(** ** Data acquisition *)

Section AcquisitionFacts.
Context {UC : UnicodeCase} {P : Processes}.

Lemma extract_jmnedict_present (w : world) :
  is_Some (files w !! jm_xml) ->
  _extract_jmnedict_files jm_xml jm_gz jm_zip w = (Ok tt, w).
Proof.
  intros [x Hx]. destruct w as [fs out sp g]. cbn [files] in Hx.
  unfold _extract_jmnedict_files. io_unfold.
  rewrite !exists_lookup, Hx, !andb_false_r. cbn [files].
  rewrite !exists_lookup, Hx, !andb_false_r. reflexivity.
Qed.

Lemma extract_census_present (w : world) :
  is_Some (files w !! census_csv) -> _extract_census_data w = (Ok tt, w).
Proof.
  intros [x Hx]. destruct w as [fs out sp g]. cbn [files] in Hx.
  unfold _extract_census_data. io_unfold.
  rewrite !exists_lookup. unfold census_csv in Hx. rewrite Hx. reflexivity.
Qed.

Lemma download_present (w : world) :
  is_Some (files w !! jm_xml) -> is_Some (files w !! census_csv) ->
  download_if_missing w = (Ok tt, w).
Proof.
  intros Hxml Hcsv. unfold download_if_missing.
  unfold mbind at 1, io_bind at 1, get_files. rewrite (exists_lookup _ jm_xml).
  destruct Hxml as [x Hx]. rewrite Hx, orb_true_r. cbn [negb orb].
  unfold mbind, io_bind, mret, io_ret.
  rewrite extract_jmnedict_present by eauto.
  apply extract_census_present, Hcsv.
Qed.

(** X9.  Acquisition is idempotent: with [JMnedict.xml] and the census CSV
    in place [download_if_missing] starts no process, prints nothing and
    changes no file. *)
Theorem download_idempotent (w : world) :
  is_Some (files w !! jm_xml) -> is_Some (files w !! census_csv) ->
  download_if_missing w = (Ok tt, w).
Proof. exact (download_present w). Qed.

(** X10.  The census data.  With the CSV in place nothing happens.  With
    only the zip file in place no download is made and [unzip] is the one
    process started.  With neither, [curl] is started first, and when it
    exits with a non-zero status its [CalledProcessError] propagates at
    once: there is no second source and [unzip] is not started. *)
Theorem census_steps (w : world) :
  (is_Some (files w !! census_csv) -> _extract_census_data w = (Ok tt, w))
  /\ (files w !! census_csv = None -> is_Some (files w !! census_zip) ->
      spawned (_extract_census_data w).2 = spawned w ++ [census_unzip])
  /\ (forall code fs,
        files w !! census_csv = None -> files w !! census_zip = None ->
        run_process census_curl (files w) = (Exited code, fs) -> code <> 0%Z ->
        (_extract_census_data w).1 = Raise (CalledProcessError code census_curl)
        /\ spawned (_extract_census_data w).2 = spawned w ++ [census_curl])
  /\ (forall fs,
        files w !! census_csv = None -> files w !! census_zip = None ->
        run_process census_curl (files w) = (Exited 0, fs) ->
        spawned (_extract_census_data w).2 = spawned w ++ [census_curl; census_unzip]).
Proof.
  split; [apply extract_census_present|].
  destruct w as [fs0 out sp g]. cbn [files spawned].
  split; [|split].
  - intros Hcsv [z Hzip].
    unfold _extract_census_data. io_unfold. rewrite !exists_lookup.
    unfold census_csv, census_zip in *. rewrite Hcsv, Hzip. cbn [negb].
    unfold subprocess_run_check. cbn [files stdout spawned rng].
    destruct (run_process _ fs0) as [[[| |]|msg] fs1]; reflexivity.
  - intros code fs Hcsv Hzip Hrun Hcode.
    unfold _extract_census_data. io_unfold. rewrite !exists_lookup.
    unfold census_csv, census_zip in *. rewrite Hcsv, Hzip. cbn [negb].
    unfold _run_curl, subprocess_run_check. cbn [files stdout spawned rng].
    unfold census_curl, census_zip in Hrun. rewrite Hrun.
    destruct code; [congruence | split; reflexivity | split; reflexivity].
  - intros fs Hcsv Hzip Hrun.
    unfold _extract_census_data. io_unfold. rewrite !exists_lookup.
    unfold census_csv, census_zip in *. rewrite Hcsv, Hzip. cbn [negb].
    unfold _run_curl, subprocess_run_check. cbn [files stdout spawned rng].
    unfold census_curl, census_zip in Hrun. rewrite Hrun.
    cbn [files stdout spawned rng].
    destruct (run_process _ fs) as [[[| |]|msg] fs1]; cbn [snd spawned];
      rewrite <- app_assoc; reflexivity.
Qed.
End AcquisitionFacts.

Lemma download_idempotent_witness :
  @download_if_missing ascii_case (demo_processes true []) ready_world
  = (Ok tt, ready_world).
Proof.
  apply (@download_idempotent ascii_case (demo_processes true []) ready_world);
    eexists; reflexivity.
Defined.

Lemma census_steps_witness :
  (@_extract_census_data (demo_processes false ["-L"%string]) empty_world).1
  = Raise (CalledProcessError 22 census_curl).
Proof.
  apply (proj1 (proj2 (proj2 (@census_steps
           (demo_processes false ["-L"%string]) empty_world)))
           22%Z ∅ eq_refl eq_refl eq_refl).
  discriminate.
Defined.

(** ** Surnames *)

(** X11.  [parse_western_surnames] changes nothing in the world.  Without
    the CSV it raises [FileNotFoundError]; without a [name] column it raises
    [KeyError]; otherwise it returns, sorted and without repetition, exactly
    the title-cased strings of that column: cells that are not strings are
    ignored and equal surnames are merged. *)
Theorem surnames_loaded {UC : UnicodeCase} (w : world) :
  (files w !! census_csv = None ->
   parse_western_surnames w = (Raise (FileNotFoundError census_csv), w))
  /\ (forall columns,
        files w !! census_csv = Some (CsvTable columns) ->
        List.find (fun col => bool_decide (col.1 = "name"%string)) columns = None ->
        parse_western_surnames w = (Raise (KeyError "name"), w))
  /\ (forall columns key census_name,
        files w !! census_csv = Some (CsvTable columns) ->
        List.find (fun col => bool_decide (col.1 = "name"%string)) columns
          = Some (key, census_name) ->
        exists surnames,
          parse_western_surnames w = (Ok surnames, w)
          /\ StronglySorted str_le surnames
          /\ NoDup surnames
          /\ forall x, x ∈ surnames
                       <-> exists s, CellStr s ∈ census_name /\ x = py_title s).
Proof.
  unfold parse_western_surnames, census_csv. io_unfold.
  split; [|split].
  - intros ->. reflexivity.
  - intros columns -> ->. reflexivity.
  - intros columns key census_name -> ->.
    eexists. split; [reflexivity|].
    match goal with |- context [py_sorted (elements ?X)] =>
      destruct (py_sorted_elements X) as (Hsorted & Hnodup & Hmem) end.
    split; [exact Hsorted|]. split; [exact Hnodup|].
    intros x. rewrite Hmem, elem_of_list_to_set, list_elem_of_In, in_flat_map.
    split.
    + intros ([s|] & Hin & Hx); simpl in Hx; [|contradiction].
      destruct Hx as [<- | []]. exists s. split; [apply list_elem_of_In, Hin | reflexivity].
    + intros (s & Hin & ->). exists (CellStr s).
      split; [apply list_elem_of_In, Hin | left; reflexivity].
Qed.

Lemma surnames_loaded_witness :
  exists surnames,
    @parse_western_surnames ascii_case ready_world = (Ok surnames, ready_world)
    /\ forall x, x ∈ surnames
                 <-> exists s, CellStr s ∈ [CellStr (lit "SMITH"); CellOther]
                               /\ x = @py_title ascii_case s.
Proof.
  destruct (proj2 (proj2 (@surnames_loaded ascii_case ready_world))
              [("name"%string, [CellStr (lit "SMITH"); CellOther])]
              "name"%string [CellStr (lit "SMITH"); CellOther]
              eq_refl eq_refl) as (l & Hl & _ & _ & Hmem).
  exists l. split; [exact Hl | exact Hmem].
Defined.

(** ** The cache file *)

Lemma py_lstrip_suffix (s : pystr) : exists p, s = p ++ py_lstrip s.
Proof.
  induction s as [|c s [p IH]]; simpl; [exists []; reflexivity|].
  destruct (py_isspace c).
  - exists (c :: p). simpl. f_equal. exact IH.
  - exists []. reflexivity.
Qed.

(** What [strip] returns has no white space at its ends. *)
Lemma py_strip_trimmed (s : pystr) : trimmed (py_strip s).
Proof.
  split; [|apply py_strip_last].
  intros c Hc. unfold py_strip, py_rstrip in Hc.
  destruct (py_lstrip_suffix (rev (py_lstrip s))) as [p Hp].
  assert (Hm : py_lstrip s = rev (py_lstrip (rev (py_lstrip s))) ++ rev p).
  { rewrite <- rev_app_distr, <- Hp, rev_involutive. reflexivity. }
  destruct (rev (py_lstrip (rev (py_lstrip s)))) as [|a r]; [discriminate|].
  simpl in Hc. injection Hc as ->.
  apply (py_lstrip_head s). rewrite Hm. reflexivity.
Qed.

Lemma load_from_jp_names_file_ok (w : world) :
  exists names w',
    load_from_jp_names_file w = (Ok names, w')
    /\ files w' = files w
    /\ spawned w' = spawned w
    /\ Forall (fun n => n <> [] /\ trimmed n) names.
Proof.
  unfold load_from_jp_names_file. io_unfold.
  destruct (files w !! jp_names_path) as [[content| | | | |]|];
    try (do 2 eexists; split; [reflexivity|]; repeat split; constructor).
  do 2 eexists. split; [reflexivity|]. split; [reflexivity|]. split; [reflexivity|].
  apply Forall_forall. intros n Hn.
  apply list_elem_of_In, in_map_iff in Hn as (line & <- & Hline).
  apply List.filter_In in Hline as [_ Hline].
  split; [|apply py_strip_trimmed].
  apply negb_true_iff, is_nil_false in Hline. exact Hline.
Qed.

(** X12.  Loading the cache never raises and changes no file; every name it
    returns is non-empty and has no white space at its ends, whatever the
    file holds. *)
Theorem load_is_safe (w : world) :
  exists names w',
    load_from_jp_names_file w = (Ok names, w')
    /\ files w' = files w
    /\ spawned w' = spawned w
    /\ Forall (fun n => n <> [] /\ trimmed n) names.
Proof. exact (load_from_jp_names_file_ok w). Qed.


Lemma match_lf {A} (b : N) (x d : A) :
  match b with
  | 10 => x
  | _ => d
  end = if b =? 10 then x else d.
Proof.
  destruct b as [|p]; [reflexivity|].
  do 4 (destruct p as [p|p|]; try reflexivity).
Qed.

Lemma readlines_nil_inv (s : pystr) : readlines s = [] -> s = [].
Proof.
  destruct s as [|c s]; [reflexivity|]. simpl.
  destruct (c =? 10); [discriminate|].
  destruct (c =? 13).
  - destruct s as [|b s]; [discriminate|]. rewrite match_lf.
    destruct (b =? 10); discriminate.
  - destruct (readlines s); discriminate.
Qed.

(** A line feed ends a line whatever comes before it. *)
Lemma readlines_lf (n : nat) :
  forall c rest, (length c <= n)%nat ->
    readlines (c ++ 10 :: rest) = readlines (c ++ [10]) ++ readlines rest.
Proof.
  induction n as [|n IH]; intros c rest Hlen.
  - destruct c; [reflexivity | simpl in Hlen; lia].
  - destruct c as [|a c]; [reflexivity|]. simpl in Hlen.
    change ((a :: c) ++ 10 :: rest) with (a :: (c ++ 10 :: rest)).
    change ((a :: c) ++ [10]) with (a :: (c ++ [10])).
    cbn [readlines]. destruct (a =? 10).
    { rewrite (IH c rest) by lia. reflexivity. }
    destruct (a =? 13).
    + destruct c as [|b c]; [reflexivity|]. simpl in Hlen.
      cbn [app]. rewrite !match_lf. destruct (b =? 10) eqn:Hb.
      * rewrite (IH c rest) by lia. reflexivity.
      * change (b :: c ++ 10 :: rest) with ((b :: c) ++ 10 :: rest).
        change (b :: c ++ [10]) with ((b :: c) ++ [10]).
        rewrite (IH (b :: c) rest) by (simpl; lia). reflexivity.
    + rewrite (IH c rest) by lia.
      destruct (readlines (c ++ [10])) as [|l ls] eqn:Hl.
      * apply readlines_nil_inv in Hl. destruct c; discriminate Hl.
      * reflexivity.
Qed.

Lemma readlines_app (content rest : pystr) :
  ends_lines content ->
  readlines (content ++ rest) = readlines content ++ readlines rest.
Proof.
  intros [-> | Hlast]; [reflexivity|].
  apply last_Some in Hlast as [c ->].
  rewrite <- app_assoc. simpl. apply (readlines_lf (length c)). lia.
Qed.

Lemma names_of_text_app (content rest : pystr) :
  ends_lines content ->
  names_of_text (content ++ rest) = names_of_text content ++ names_of_text rest.
Proof.
  intros H. unfold names_of_text.
  rewrite (readlines_app _ _ H), List.filter_app, List.map_app. reflexivity.
Qed.

(** X14.  Appending keeps what the cache held.  When the cache text is
    empty or ends with a line feed, saving a name without line break and
    lone surrogate and loading again returns the names loaded before,
    followed by the new name trimmed (by nothing when the name is blank);
    and the text again ends with a line feed. *)
Theorem append_keeps_names (name : pystr) (w : world) (content : pystr) :
  cache_text (files w) = Some content ->
  ends_lines content ->
  forallb line_char name = true ->
  exists w',
    save_to_jp_names_file name w = (Ok tt, w')
    /\ load_from_jp_names_file w'
       = (Ok (names_of_text content
              ++ if is_nil (py_strip name) then [] else [py_strip name]), w')
    /\ exists content', cache_text (files w') = Some content' /\ ends_lines content'.
Proof.
  intros Hc Hends Hname.
  destruct (save_to_text name w content Hc Hname) as (w' & Hsave & Hc').
  exists w'. split; [exact Hsave|]. split.
  - rewrite (load_from_text _ _ Hc'), (names_of_text_app _ _ Hends).
    do 3 f_equal. unfold names_of_text.
    assert (Hl : readlines (name ++ [10]) = [name ++ [10]]).
    { apply (readlines_line name []), Hname. }
    rewrite Hl. simpl. rewrite (py_strip_snoc_space name 10 eq_refl).
    destruct (py_strip name) eqn:Hs; simpl; [reflexivity|].
    rewrite (py_strip_snoc_space name 10 eq_refl), Hs. reflexivity.
  - exists (content ++ name ++ [10]). split; [exact Hc'|]. right.
    rewrite app_assoc. apply last_snoc.
Qed.

Lemma append_keeps_names_witness :
  exists w',
    save_to_jp_names_file (lit " Hanako ") ready_world = (Ok tt, w')
    /\ load_from_jp_names_file w' = (Ok [lit "Aiko"; lit "Hanako"], w').
Proof.
  destruct (append_keeps_names (lit " Hanako ") ready_world (lit "Aiko" ++ [10])
              eq_refl (or_intror eq_refl) eq_refl) as (w' & Hsave & Hload & _).
  exists w'. split; [exact Hsave | exact Hload].
Defined.

(** ** Preparing the data *)

Lemma name_char_line_char (c : N) : is_name_char c = true -> line_char c = true.
Proof.
  unfold is_name_char, is_letter, line_char, is_newline, is_surrogate, in_range.
  rewrite !orb_true_iff, !andb_true_iff, !N.leb_le, !N.eqb_eq. intros H.
  rewrite !negb_true_iff, orb_false_iff, andb_false_iff, !N.eqb_neq, !N.leb_gt.
  lia.
Qed.

Lemma write_names_lines (names : list pystr) :
  forall written,
    Forall (fun n => forallb line_char n = true) names ->
    write_names written names = (written ++ lines_of names, true).
Proof.
  induction names as [|n names IH]; intros written Hall; simpl.
  - rewrite app_nil_r. reflexivity.
  - inversion Hall as [|? ? Hn Hall']; subst.
    assert (Hs : existsb is_surrogate n = false).
    { apply not_true_iff_false. intros He.
      apply existsb_exists in He as (c & Hin & Hc).
      rewrite forallb_forall in Hn. specialize (Hn c Hin).
      unfold line_char in Hn. apply andb_true_iff in Hn as [_ Hn].
      rewrite Hc in Hn. discriminate Hn. }
    rewrite Hs, (IH _ Hall'). unfold lines_of. simpl.
    rewrite <- !app_assoc. reflexivity.
Qed.

Section Preparation.
Context {UC : UnicodeCase} {KKS : Kakasi} {P : Processes}.

(** With the dictionary, the census and a non-empty cache in place, nothing
    is left to prepare. *)
Lemma ensure_data_prepared_ready (w : world) (f : file) :
  is_Some (files w !! jm_xml) -> is_Some (files w !! census_csv) ->
  files w !! jp_names_path = Some f -> f <> Text [] ->
  ensure_data_prepared w = (Ok tt, w).
Proof.
  intros Hxml Hcsv Hf Hne. unfold ensure_data_prepared.
  unfold mbind at 1, io_bind at 1, get_files. rewrite Hf.
  unfold mbind, io_bind. rewrite (download_present w Hxml Hcsv).
  destruct f as [[|c content]| | | | |]; try reflexivity. congruence.
Qed.

(** X15.  A prepared data directory stays as it is: with [JMnedict.xml],
    the census CSV and a non-empty cache file in place
    [ensure_data_prepared] starts no process, does not read the dictionary
    again and changes nothing, whatever the dictionary now holds. *)
Theorem prepared_is_stable (w : world) (f : file) :
  is_Some (files w !! jm_xml) -> is_Some (files w !! census_csv) ->
  files w !! jp_names_path = Some f -> f <> Text [] ->
  ensure_data_prepared w = (Ok tt, w).
Proof. exact (ensure_data_prepared_ready w f). Qed.

Hypothesis Hcase : case_keeps_nonspace.

(** X16.  Populating the cache.  With the dictionary and the census in
    place and the cache absent or empty, when the extraction returns a list
    of names, [ensure_data_prepared] writes them to the cache one per line,
    loading the cache returns exactly that list, and a second run changes
    nothing. *)
Theorem population_round_trip (w : world) (names : list pystr) :
  is_Some (files w !! jm_xml) -> is_Some (files w !! census_csv) ->
  (files w !! jp_names_path = None \/ files w !! jp_names_path = Some (Text [])) ->
  parse_japanese_names (files w) = Ok names ->
  exists w',
    ensure_data_prepared w = (Ok tt, w')
    /\ files w' = <[jp_names_path := Text (lines_of names)]> (files w)
    /\ load_from_jp_names_file w' = (Ok names, w')
    /\ ensure_data_prepared w' = (Ok tt, w').
Proof.
  intros Hxml Hcsv Hcache Hparse.
  destruct (parse_names_inv (fun n => valid_romaji n = true /\ trimmed n)) with
    (fs := files w) (names := names) as [Hne Hall]; [|exact Hparse|].
  { intros base Hv. split; [exact Hv | apply valid_romaji_trimmed; assumption]. }
  assert (Hline : Forall (fun n => forallb line_char n = true) names).
  { eapply Forall_impl; [exact Hall|]. intros n [Hv _]. apply forallb_forall.
    apply valid_romaji_spec in Hv as [_ (c & rest & -> & Hc & Hrest)].
    intros d [<- | Hd].
    - apply name_char_line_char. unfold is_name_char. rewrite Hc. reflexivity.
    - apply name_char_line_char. rewrite Forall_forall in Hrest.
      apply Hrest, list_elem_of_In, Hd. }
  set (w' := mkWorld (<[jp_names_path := Text (lines_of names)]> (files w))
                     (stdout w) (spawned w) (rng w)).
  assert (Hrun : ensure_data_prepared w = (Ok tt, w')).
  { unfold ensure_data_prepared.
    unfold mbind at 1, io_bind at 1, get_files.
    assert (Havail : match files w !! jp_names_path with
                     | None | Some (Text []) => false
                     | Some _ => true
                     end = false) by (destruct Hcache as [-> | ->]; reflexivity).
    rewrite Havail. unfold mbind, io_bind at 1.
    rewrite (download_present w Hxml Hcsv). cbn [negb].
    unfold io_bind, get_files, io_lift. rewrite Hparse.
    rewrite (write_names_lines names [] Hline). reflexivity. }
  exists w'. split; [exact Hrun|]. split; [reflexivity|]. split.
  - assert (Hc : cache_text (files w') = Some (lines_of names)).
    { unfold cache_text, w'. cbn [files]. rewrite lookup_insert_eq. reflexivity. }
    rewrite (load_from_text _ _ Hc). do 2 f_equal.
    unfold lines_of. rewrite names_of_text_lines.
    + clear -Hall. induction Hall as [|n names [_ Hn] _ IH]; [reflexivity|].
      simpl. rewrite (trimmed_strip _ Hn), IH. reflexivity.
    + rewrite Forall_forall in Hall, Hline. apply Forall_forall. intros n Hn.
      split; [|apply Hline, Hn]. destruct (Hall n Hn) as [Hv Htrim].
      rewrite (trimmed_strip _ Htrim).
      apply valid_romaji_spec in Hv as [Hlen _].
      destruct n; [simpl in Hlen; lia | discriminate].
  - apply (ensure_data_prepared_ready w' (Text (lines_of names))).
    + unfold w'. cbn [files]. rewrite lookup_insert_ne by discriminate. exact Hxml.
    + unfold w'. cbn [files]. rewrite lookup_insert_ne by discriminate. exact Hcsv.
    + unfold w'. cbn [files]. apply lookup_insert_eq.
    + destruct names as [|n names]; [congruence|].
      unfold lines_of. simpl. destruct n; discriminate.
Qed.
End Preparation.

Lemma prepared_is_stable_witness :
  @ensure_data_prepared ascii_case demo_kakasi (demo_processes true []) ready_world
  = (Ok tt, ready_world).
Proof.
  apply (@prepared_is_stable ascii_case demo_kakasi (demo_processes true [])
           ready_world (Text (lit "Aiko" ++ [10]))).
  - eexists. reflexivity.
  - eexists. reflexivity.
  - reflexivity.
  - discriminate.
Defined.

Lemma population_round_trip_witness :
  exists w',
    @ensure_data_prepared ascii_case demo_kakasi (demo_processes true []) fresh_world
    = (Ok tt, w')
    /\ load_from_jp_names_file w' = (Ok [lit "Aiko"], w').
Proof.
  destruct (@population_round_trip ascii_case demo_kakasi (demo_processes true [])
              ascii_case_keeps_nonspace fresh_world [lit "Aiko"])
    as (w' & Hrun & _ & Hload & _).
  - eexists. reflexivity.
  - eexists. reflexivity.
  - left. reflexivity.
  - vm_compute. reflexivity.
  - exists w'. split; [exact Hrun | exact Hload].
Defined.

(** ** The generator and the entry point *)

Section MainFacts.
Context {UC : UnicodeCase} {KKS : Kakasi} {P : Processes} {R : Random}.

(** A successful draw returns a member and touches neither the files nor
    the output. *)
Lemma random_choice_inv (seq : list pystr) (w : world) x w' :
  random_choice seq w = (Ok x, w') ->
  x ∈ seq /\ stdout w' = stdout w /\ files w' = files w.
Proof.
  unfold random_choice. destruct (is_nil seq); [discriminate|].
  destruct (randbelow (rng w) (length seq)) as [i g].
  destruct (seq !! i) as [y|] eqn:Hy; [|discriminate].
  intros [= <- <-]. split; [eapply list_elem_of_lookup_2, Hy|]. split; reflexivity.
Qed.

Lemma random_choice_error (seq : list pystr) (w : world) e w' :
  random_choice seq w = (Raise e, w') -> exists msg, e = IndexError msg.
Proof.
  unfold random_choice. destruct (is_nil seq); [intros [= <- _]; eauto|].
  destruct (randbelow (rng w) (length seq)) as [i g].
  destruct (seq !! i); [discriminate|]. intros [= <- _]. eauto.
Qed.

Lemma generate_name_inv (jp west : list pystr) (w : world) r w' :
  generate_name jp west w = (Ok r, w') ->
  exists given surname,
    r = given ++ lit " " ++ surname /\ given ∈ jp /\ surname ∈ west
    /\ stdout w' = stdout w /\ files w' = files w.
Proof.
  unfold generate_name, mbind, io_bind, mret, io_ret.
  destruct (random_choice jp w) as [[a|] w1] eqn:Ha; [|discriminate].
  destruct (random_choice west w1) as [[b|] w2] eqn:Hb; [|discriminate].
  intros [= <- <-].
  apply random_choice_inv in Ha as (Ha & Ho1 & Hf1).
  apply random_choice_inv in Hb as (Hb & Ho2 & Hf2).
  exists a, b. repeat split; try assumption; congruence.
Qed.

(** X17.  The generator checks nothing itself: with an empty list of given
    names it raises [IndexError] without drawing, and with an empty list of
    surnames it raises [IndexError] as well. *)
Theorem generate_name_empty (jp_names west_surnames : list pystr) (w : world) :
  (jp_names = [] ->
   generate_name jp_names west_surnames w
   = (Raise (IndexError "Cannot choose from an empty sequence"), w))
  /\ (west_surnames = [] ->
      exists msg, (generate_name jp_names west_surnames w).1 = Raise (IndexError msg)).
Proof.
  split.
  - intros ->. reflexivity.
  - intros ->. unfold generate_name, mbind, io_bind.
    destruct (random_choice jp_names w) as [[a|e] w1] eqn:Ha.
    + simpl. eauto.
    + apply random_choice_error in Ha as [msg ->]. simpl. eauto.
Qed.

Lemma replace_char_absent (old : N) (new s : pystr) :
  old ∉ new -> old ∉ py_replace_char old new s.
Proof.
  intros Hnew. unfold py_replace_char.
  induction s as [|c s IH]; simpl; [apply not_elem_of_nil|].
  rewrite elem_of_app. intros [H | H]; [|exact (IH H)].
  destruct (c =? old) eqn:Hc; [exact (Hnew H)|].
  apply list_elem_of_singleton in H. subst c. rewrite N.eqb_refl in Hc. discriminate.
Qed.

(** X18.  What [main] returns and prints.  It returns 1 or 0.  With 1 the
    last line printed is the message that no name is available.  With 0 the
    last two lines are the generated name, a name loaded from the cache, one
    space and a surname, and its slug, the lower-cased name with every space
    replaced by a hyphen, in which no space is left. *)
Theorem main_output (w : world) (status : Z) (w' : world) :
  main w = (Ok status, w') ->
  (status = 1%Z /\ exists before, stdout w' = before ++ [no_names_message])
  \/ (status = 0%Z
      /\ exists before given surname,
           stdout w' = before ++ [given ++ lit " " ++ surname;
                                  slug_of (given ++ lit " " ++ surname)]
           /\ given <> [] /\ trimmed given
           /\ 32 ∉ slug_of (given ++ lit " " ++ surname)).
Proof.
  unfold main. unfold mbind at 1, io_bind at 1.
  destruct (ensure_data_prepared w) as [[[]|e] w1]; [|discriminate].
  unfold mbind at 1, io_bind at 1.
  destruct (load_from_jp_names_file_ok w1) as (names & w2 & -> & _ & _ & Hnames).
  destruct names as [|n names]; cbn [is_nil].
  - io_unfold. intros [= <- <-]. left. split; [reflexivity|]. cbn [stdout]. eauto.
  - unfold mbind at 1, io_bind at 1.
    destruct (parse_western_surnames w2) as [[west|e] w3]; [|discriminate].
    unfold mbind at 1, io_bind at 1.
    destruct (generate_name (n :: names) west w3) as [[r|e] w4] eqn:Hgen;
      [|discriminate].
    io_unfold. intros [= <- <-]. right. split; [reflexivity|].
    apply generate_name_inv in Hgen as (given & surname & -> & Hg & _ & _ & _).
    exists (stdout w4), given, surname. cbn [stdout].
    split; [rewrite <- app_assoc; reflexivity|].
    rewrite Forall_forall in Hnames. destruct (Hnames given Hg) as [Hne Htrim].
    split; [exact Hne|]. split; [exact Htrim|].
    apply replace_char_absent. intros H. apply list_elem_of_singleton in H.
    discriminate H.
Qed.
End MainFacts.

Lemma generate_name_empty_witness :
  @generate_name demo_random [] [lit "Smith"] empty_world
  = (Raise (IndexError "Cannot choose from an empty sequence"), empty_world).
Proof.
  apply (proj1 (@generate_name_empty demo_random [] [lit "Smith"] empty_world)).
  reflexivity.
Defined.

Lemma main_output_witness :
  exists before given surname,
    stdout (@main ascii_case demo_kakasi (demo_processes true []) demo_random ready_world).2
    = before ++ [given ++ lit " " ++ surname;
                 @slug_of ascii_case (given ++ lit " " ++ surname)]
    /\ 32 ∉ @slug_of ascii_case (given ++ lit " " ++ surname).
Proof.
  destruct (@main_output ascii_case demo_kakasi (demo_processes true []) demo_random
              ready_world 0%Z
              (@main ascii_case demo_kakasi (demo_processes true []) demo_random
                 ready_world).2)
    as [[H _] | (_ & before & given & surname & Hout & _ & _ & Hslug)].
  - vm_compute. reflexivity.
  - discriminate H.
  - exists before, given, surname. split; [exact Hout | exact Hslug].
Defined.

(** ** The order of the entries *)

Section EntryOrder.
Context {UC : UnicodeCase} {KKS : Kakasi}.

Lemma blind_body_ok (e : Element) (names : gset pystr) :
  exists e' names', blind_body e names = Ok (e', names').
Proof.
  unfold blind_body. destruct (negb (_ends (tag e) "entry")); [eauto|].
  destruct (is_nil (kana_readings e) && is_nil (kanji_readings e)) eqn:Hnil; [eauto|].
  destruct (choose_base_ok (kana_readings e) (kanji_readings e)) as [b Hb].
  { intros [H1 H2]. rewrite H1, H2 in Hnil. discriminate. }
  rewrite Hb. simpl. destruct (negb (valid_romaji (to_romaji b))); eauto.
Qed.

(** What an element contributes does not depend on what was collected
    before it. *)
Lemma blind_frame (e : Element) (names : gset pystr) :
  exists e', iterparse_for blind_body e names = Ok (e', collected e ∪ names).
Proof.
  destruct (iterparse_for_total blind_body (fun _ => True)) with (e := e) (s := (∅ : gset pystr))
    as (e0 & c & Hc & _); [|exact I|].
  { intros e1 s _. destruct (blind_body_ok e1 s) as (e' & s' & H). eauto. }
  assert (Hbody : forall e s t, s = t ∪ names ->
            sim_result (fun a b : gset pystr => a = b ∪ names)
                       (blind_body e s) (blind_body e t)).
  { clear. intros e s t ->. unfold blind_body, sim_result.
    destruct (negb (_ends (tag e) "entry")); [auto|].
    destruct (is_nil (kana_readings e) && is_nil (kanji_readings e)); [auto|].
    destruct (choose_base (kana_readings e) (kanji_readings e)) as [b|]; simpl;
      [|reflexivity].
    destruct (negb (valid_romaji (to_romaji b))); [auto|].
    split; [reflexivity | apply (assoc_L (∪))]. }
  assert (Hstart : names = (∅ : gset pystr) ∪ names)
    by (symmetry; apply (left_id_L ∅ (∪))).
  pose proof (iterparse_for_sim blind_body blind_body
                (fun a b : gset pystr => a = b ∪ names)
                Hbody e names (∅ : gset pystr) Hstart) as Hsim.
  unfold collected, blind_loop. rewrite Hc in *. simpl. unfold sim_result in Hsim.
  destruct (iterparse_for blind_body e names) as [[e1 a]|x].
  - destruct Hsim as [_ ->]. eauto.
  - contradiction.
Qed.

Lemma visit_children_blind (cs : list Element) :
  forall names, exists cs',
    visit_children blind_body cs names = Ok (cs', ⋃ (collected <$> cs) ∪ names).
Proof.
  induction cs as [|c cs IH]; intros names; simpl.
  - exists []. f_equal. f_equal. symmetry. apply (left_id_L ∅ (∪)).
  - destruct (blind_frame c names) as [c' ->]. simpl.
    destruct (IH (collected c ∪ names)) as [cs' ->]. simpl.
    exists (c' :: cs'). do 2 f_equal.
    apply set_eq. intros y. rewrite !elem_of_union. tauto.
Qed.

(** Under a root that is not itself an entry, the loop collects the union
    of what the children contribute. *)
Lemma blind_loop_root (t x : option pystr) (cs : list Element) :
  _ends t "entry" = false ->
  blind_loop (mkElement t x cs) = Ok (⋃ (collected <$> cs)).
Proof.
  intros Ht. unfold blind_loop. rewrite iterparse_for_unfold.
  destruct (visit_children_blind cs ∅) as [cs' ->]. simpl.
  unfold blind_body. simpl. rewrite Ht. simpl.
  do 2 f_equal. apply (right_id_L ∅ (∪)).
Qed.

Lemma parse_by_blind_loop (fs : gmap string file) (root : Element) :
  fs !! jm_xml = Some (XmlDoc root) ->
  parse_japanese_names fs
  = match blind_loop root with
    | Ok all =>
        if decide (all = ∅)
        then Raise (RuntimeError "No Japanese names found after parsing." None)
        else Ok (py_sorted (elements all))
    | Raise e => Raise e
    end.
Proof.
  intros Hxml. rewrite parse_japanese_names_unfold.
  unfold _open_jmnedict_stream. unfold jm_xml in Hxml. rewrite Hxml. simpl.
  destruct (parse_loop_ok root) as [st Hst]. rewrite Hst.
  rewrite (parse_loop_blind root st Hst). reflexivity.
Qed.

(** X19.  The order of the entries of the dictionary does not matter, nor
    does their repetition: under a root element that is not itself an
    entry, the extraction collects the union of what each child contributes
    on its own, so that two dictionaries with the same entries in another
    order give the same result, and so does a dictionary in which an entry
    stands twice. *)
Theorem entry_order_irrelevant (fs : gmap string file) (t x : option pystr)
        (cs cs' : list Element) :
  _ends t "entry" = false ->
  cs ≡ₚ cs' ->
  blind_loop (mkElement t x cs) = Ok (⋃ (collected <$> cs))
  /\ parse_japanese_names (<[jm_xml := XmlDoc (mkElement t x cs)]> fs)
     = parse_japanese_names (<[jm_xml := XmlDoc (mkElement t x cs')]> fs)
  /\ (forall c,
        parse_japanese_names (<[jm_xml := XmlDoc (mkElement t x (c :: c :: cs))]> fs)
        = parse_japanese_names (<[jm_xml := XmlDoc (mkElement t x (c :: cs))]> fs)).
Proof.
  intros Ht Hperm. split; [apply blind_loop_root, Ht|]. split.
  - rewrite (parse_by_blind_loop _ (mkElement t x cs)) by apply lookup_insert_eq.
    rewrite (parse_by_blind_loop _ (mkElement t x cs')) by apply lookup_insert_eq.
    rewrite !blind_loop_root by exact Ht.
    assert (Heq : ⋃ (collected <$> cs) = ⋃ (collected <$> cs')).
    { apply leibniz_equiv. rewrite Hperm. reflexivity. }
    rewrite Heq. reflexivity.
  - intros c.
    rewrite (parse_by_blind_loop _ (mkElement t x (c :: c :: cs)))
      by apply lookup_insert_eq.
    rewrite (parse_by_blind_loop _ (mkElement t x (c :: cs)))
      by apply lookup_insert_eq.
    rewrite !blind_loop_root by exact Ht.
    assert (Heq : ⋃ (collected <$> c :: c :: cs) = ⋃ (collected <$> c :: cs)).
    { simpl. apply set_eq. intros y. rewrite !elem_of_union. tauto. }
    rewrite Heq. reflexivity.
Qed.
End EntryOrder.

Lemma entry_order_irrelevant_witness :
  @parse_japanese_names ascii_case demo_kakasi
    (<[jm_xml := XmlDoc (mkElement (Some (lit "JMnedict")) None two_entries)]> ∅)
  = @parse_japanese_names ascii_case demo_kakasi
      (<[jm_xml := XmlDoc (mkElement (Some (lit "JMnedict")) None two_entries_swapped)]> ∅).
Proof.
  apply (proj1 (proj2 (@entry_order_irrelevant ascii_case demo_kakasi ∅
                  (Some (lit "JMnedict")) None two_entries two_entries_swapped
                  eq_refl (Permutation_swap _ _ [])))).
Defined.
